(** * Session multiplexing over one transport: src/chromium/crConnection.ts

    A shallow embedding of [CRConnection] and [CRSession] and the proofs of
    their correlation and lifecycle properties.

    Objects live in a store: a session is referred to by its address in
    [heap], because the registry of the connection and the callers share
    session objects (a session removed from the registry is still reachable
    by whoever holds it).  Methods are state transformers over [World] that
    either return or throw; a thrown exception keeps every mutation made
    before it, as in JavaScript. *)

From stdpp Require Import base list strings numbers pretty sorting.

Local Open Scope Z_scope.
Set Warnings "-register-all,-clear-no-such-hyp".

(** ** JavaScript values *)

(** JSON-like payloads ([params], [result], [error.data] are typed [any]).
    Numbers are restricted to integers.

    Request ids are JavaScript numbers that hold integers: the counter of
    the connection starts at 0 and only [++] is applied to it, which is
    exact on doubles below 2^53.  They are modelled by [Z]. *)
Inductive JSValue :=
  | JUndefined
  | JNull
  | JBool (b : bool)
  | JNum (n : Z)
  | JStr (s : string)
  | JArr (l : list JSValue)
  | JObj (fields : list (string * JSValue)).

Fixpoint join (sep : string) (l : list string) : string :=
  match l with
  | [] => ""
  | [s] => s
  | s :: rest => s +:+ sep +:+ join sep rest
  end.

(** [ToString], as applied by a template literal [`${v}`]. *)
Fixpoint js_toString (v : JSValue) : string :=
  match v with
  | JUndefined => "undefined"
  | JNull => "null"
  | JBool true => "true"
  | JBool false => "false"
  | JNum n => pretty n
  | JStr s => s
  | JArr l =>
      join "," (map (fun x => match x with
                              | JUndefined | JNull => ""
                              | _ => js_toString x
                              end) l)
  | JObj _ => "[object Object]"
  end.

(** Truthiness of an optional number field ([undefined] and [0] are falsy). *)
Definition truthy_num (o : option Z) : bool :=
  match o with
  | Some i => negb (i =? 0)
  | None => false
  end.

(** Truthiness of a string ([''] is falsy). *)
Definition truthy_str (s : string) : bool :=
  match s with EmptyString => false | _ => true end.

(** [s || ''] on an optional string field. *)
Definition or_empty (o : option string) : string := default "" o.

(** ** Errors *)

(** The stack captured by [new Error()] where it is evaluated. *)
Definition CallSite := string.

Record JSError := { message : string; stack : CallSite }.

Definition new_Error (msg : string) (site : CallSite) : JSError :=
  {| message := msg; stack := site |}.

(** Modelled from the spec: [rewriteErrorMessage] of src/debug/stackTrace is
    not among the sources.  "Given a call-site-captured diagnostic context
    and a replacement message, returns an error value whose message is
    replaced but whose original call-site context is preserved". *)
Definition rewriteErrorMessage (e : JSError) (newMessage : string) : JSError :=
  {| message := newMessage; stack := stack e |}.

Inductive Exn :=
  | ErrorExn (e : JSError)  (* throw new Error(...) *)
  | TypeErrorExn            (* property read on undefined *)
  | AssertionFailed         (* assert(value) of ../helper on a falsy value *)
  | NoSuchObject.           (* a reference to no object: never built by the model *)

Inductive Result (A : Type) :=
  | Ok (a : A)
  | Throw (e : Exn).
Arguments Ok {A} a.
Arguments Throw {A} e.

(** ** Envelopes *)

(** Modelled from the spec: the payload types of src/chromium/protocol are
    not among the sources.  [params] of an inbound frame is the payload of an
    attach notification ("{sessionId, targetInfo:{type,...}}"), of a detach
    notification ("{sessionId}"), or any other value, which has neither
    property. *)
Inductive Params :=
  | AttachedPayload (sessionId : string) (targetInfo_type : string)
  | DetachedPayload (sessionId : string)
  | OtherPayload (v : JSValue).

(** [params.sessionId]: [None] is [undefined]. *)
Definition params_sessionId (p : Params) : option string :=
  match p with
  | AttachedPayload s _ => Some s
  | DetachedPayload s => Some s
  | OtherPayload _ => None
  end.

(** Modelled from the spec: [ProtocolRequest] and [ProtocolResponse] of
    src/transport are not among the sources.  "Request: {id: integer,
    method: string, params?: object, sessionId?: string}; Response: {id?:
    integer, sessionId?: string, method?: string, params?: object, result?:
    object, error?: {message: string, data?: any}}".  An absent field is
    [None]. *)
Module ProtocolError.
Record t := { message : string; data : option JSValue }.
End ProtocolError.

Module ProtocolRequest.
Record t := {
  id : Z;
  method : string;
  params : option JSValue;
  sessionId : option string }.
End ProtocolRequest.

Module ProtocolResponse.
Record t := {
  id : option Z;
  method : option string;
  sessionId : option string;
  error : option ProtocolError.t;
  params : option Params;
  result : option JSValue }.

Definition with_id (i : option Z) (m : t) : t :=
  {| id := i; method := method m; sessionId := sessionId m;
     error := error m; params := params m; result := result m |}.
End ProtocolResponse.

(** CRPlaywright uses this special id to issue Browser.close command which
    we should ignore. *)
Definition kBrowserCloseMessageId : Z := -9999.

(** ** Ordered maps *)

(** A JavaScript [Map]: iteration follows insertion order, [set] on a key
    already there keeps its position.  Keys are unique ([set] and [delete]
    keep them so, see [NoDup_keys_set] and [NoDup_keys_delete]), so [delete]
    removes the entry of the key. *)
Module JSMap.
Section JSMap.
Context {K V : Type} `{EqDecision K}.

Definition t := list (K * V).

Fixpoint get (k : K) (m : t) : option V :=
  match m with
  | [] => None
  | (k', v) :: rest => if decide (k' = k) then Some v else get k rest
  end.

Definition has (k : K) (m : t) : bool := bool_decide (is_Some (get k m)).

Fixpoint set (k : K) (v : V) (m : t) : t :=
  match m with
  | [] => [(k, v)]
  | (k', v') :: rest =>
      if decide (k' = k) then (k, v) :: rest else (k', v') :: set k v rest
  end.

Fixpoint delete (k : K) (m : t) : t :=
  match m with
  | [] => []
  | (k', v') :: rest =>
      if decide (k' = k) then delete k rest else (k', v') :: delete k rest
  end.

Definition keys (m : t) : list K := map fst m.
Definition values (m : t) : list V := map snd m.
Definition clear (m : t) : t := [].
End JSMap.
Arguments t : clear implicits.
End JSMap.

(** ** Objects *)

(** The address of a [CRSession] in the store. *)
Definition ref := nat.

(** The promise returned by one call of [send]; its [resolve] and [reject]
    functions are the ones kept in the pending call. *)
Definition PromiseRef := nat.

(** An entry of [_callbacks]: {resolve, reject, error, method}. *)
Record Callback := {
  cb_promise : PromiseRef;
  cb_error : JSError;
  cb_method : string }.

(** [_connection: CRConnection | null]; the store holds one connection. *)
Inductive ConnectionRef := ConnNull | ConnThis.

Record CRSession := {
  _connection : ConnectionRef;
  _callbacks : JSMap.t Z Callback;
  _targetType : string;
  _sessionId : string;
  _rootSessionId : string;
  _crashed : bool }.

Record CRConnection := {
  _lastId : Z;
  _sessions : JSMap.t string ref;
  rootSession : ref;
  _closed : bool }.

(** Modelled from the spec: the transport of src/transport is not among the
    sources.  It "exposes send(requestEnvelope), an assignable
    inbound-message hook, an assignable close hook, and close()".  [sent]
    and [closeCalls] record what the connection asked of it; whether
    [close()] runs the close hook before it returns is the transport's
    choice ([syncClose]). *)
Record ConnectionTransport := {
  onmessage : bool;
  onclose : bool;
  sent : list ProtocolRequest.t;
  closeCalls : nat;
  syncClose : bool }.

Inductive LogLine :=
  | LogSend (m : ProtocolRequest.t)
  | LogRecv (m : ProtocolResponse.t).

(** Modelled from the spec: the logger of src/logger is not among the
    sources.  It "exposes a log-enabled predicate per category and a logging
    call".  [isLogEnabled] is [_isLogEnabled(protocolLog)] and [logged] what
    [_log] was given (the text of a line is not modelled). *)
Record InnerLogger := {
  isLogEnabled : bool;
  logged : list LogLine }.

Inductive Settlement :=
  | Resolved (v : JSValue)
  | Rejected (e : JSError).

Inductive EventName :=
  | EvMethod (method : option string)
  | EvDisconnected.

(** [Promise.resolve().then(() => emitter.emit(name, payload))]. *)
Inductive Microtask :=
  | EmitOnSession (r : ref) (name : EventName) (payload : option Params)
  | EmitOnConnection (name : EventName).

Record World := {
  connection : CRConnection;
  transport : ConnectionTransport;
  logger : InnerLogger;
  heap : list CRSession;
  nextPromise : PromiseRef;
  settled : list (PromiseRef * Settlement);
  microtasks : list Microtask }.

(** *** Field updates *)

Definition set_connection (c : CRConnection) (w : World) : World :=
  {| connection := c; transport := transport w; logger := logger w;
     heap := heap w; nextPromise := nextPromise w; settled := settled w;
     microtasks := microtasks w |}.

Definition set_transport (t : ConnectionTransport) (w : World) : World :=
  {| connection := connection w; transport := t; logger := logger w;
     heap := heap w; nextPromise := nextPromise w; settled := settled w;
     microtasks := microtasks w |}.

Definition set_logger (l : InnerLogger) (w : World) : World :=
  {| connection := connection w; transport := transport w; logger := l;
     heap := heap w; nextPromise := nextPromise w; settled := settled w;
     microtasks := microtasks w |}.

Definition set_heap (h : list CRSession) (w : World) : World :=
  {| connection := connection w; transport := transport w; logger := logger w;
     heap := h; nextPromise := nextPromise w; settled := settled w;
     microtasks := microtasks w |}.

Definition set_nextPromise (n : PromiseRef) (w : World) : World :=
  {| connection := connection w; transport := transport w; logger := logger w;
     heap := heap w; nextPromise := n; settled := settled w;
     microtasks := microtasks w |}.

Definition set_settled (l : list (PromiseRef * Settlement)) (w : World) : World :=
  {| connection := connection w; transport := transport w; logger := logger w;
     heap := heap w; nextPromise := nextPromise w; settled := l;
     microtasks := microtasks w |}.

Definition set_microtasks (l : list Microtask) (w : World) : World :=
  {| connection := connection w; transport := transport w; logger := logger w;
     heap := heap w; nextPromise := nextPromise w; settled := settled w;
     microtasks := l |}.

Definition set_lastId (i : Z) (c : CRConnection) : CRConnection :=
  {| _lastId := i; _sessions := _sessions c; rootSession := rootSession c;
     _closed := _closed c |}.

Definition set_sessions (m : JSMap.t string ref) (c : CRConnection) : CRConnection :=
  {| _lastId := _lastId c; _sessions := m; rootSession := rootSession c;
     _closed := _closed c |}.

Definition set_closed (b : bool) (c : CRConnection) : CRConnection :=
  {| _lastId := _lastId c; _sessions := _sessions c;
     rootSession := rootSession c; _closed := b |}.

Definition set_callbacks (m : JSMap.t Z Callback) (s : CRSession) : CRSession :=
  {| _connection := _connection s; _callbacks := m;
     _targetType := _targetType s; _sessionId := _sessionId s;
     _rootSessionId := _rootSessionId s; _crashed := _crashed s |}.

Definition set_connectionRef (c : ConnectionRef) (s : CRSession) : CRSession :=
  {| _connection := c; _callbacks := _callbacks s;
     _targetType := _targetType s; _sessionId := _sessionId s;
     _rootSessionId := _rootSessionId s; _crashed := _crashed s |}.

Definition set_crashed (b : bool) (s : CRSession) : CRSession :=
  {| _connection := _connection s; _callbacks := _callbacks s;
     _targetType := _targetType s; _sessionId := _sessionId s;
     _rootSessionId := _rootSessionId s; _crashed := b |}.

(** *** Primitive effects *)

(** [callback.resolve(v)] / [callback.reject(e)]. *)
Definition settle (p : PromiseRef) (o : Settlement) (w : World) : World :=
  set_settled (settled w ++ [(p, o)]) w.

(** [Promise.resolve().then(...)]: the task runs after the current dispatch. *)
Definition defer (t : Microtask) (w : World) : World :=
  set_microtasks (microtasks w ++ [t]) w.

(** [if (logger._isLogEnabled(protocolLog)) logger._log(protocolLog, ...)]. *)
Definition log_line (l : LogLine) (w : World) : World :=
  if isLogEnabled (logger w)
  then set_logger {| isLogEnabled := true;
                     logged := logged (logger w) ++ [l] |} w
  else w.

(** [this._transport.send(message)]. *)
Definition transport_send (m : ProtocolRequest.t) (w : World) : World :=
  set_transport
    {| onmessage := onmessage (transport w); onclose := onclose (transport w);
       sent := sent (transport w) ++ [m];
       closeCalls := closeCalls (transport w);
       syncClose := syncClose (transport w) |} w.

(** [new CRSession(...)]: the object is allocated at the next address. *)
Definition alloc_session (s : CRSession) (w : World) : ref * World :=
  (length (heap w), set_heap (heap w ++ [s]) w).

Definition store_session (r : ref) (s : CRSession) (w : World) : World :=
  set_heap (<[r := s]> (heap w)) w.

(** ** Computations that may throw *)

Definition M (A : Type) : Type := World -> World * Result A.

Definition ret {A} (a : A) : M A := fun w => (w, Ok a).
Definition throw {A} (e : Exn) : M A := fun w => (w, Throw e).
Definition bind {A B} (m : M A) (k : A -> M B) : M B :=
  fun w => match m w with
           | (w', Ok a) => k a w'
           | (w', Throw e) => (w', Throw e)
           end.
Definition modify (f : World -> World) : M unit := fun w => (f w, Ok tt).

Notation "'do' x <- m ; k" := (bind m (fun x => k))
  (at level 10, x name, m at level 100, k at level 200).
Notation "'do_' m ; k" := (bind m (fun _ => k))
  (at level 10, m at level 100, k at level 200).

(** ** CRConnection and CRSession *)

Definition new_CRSession (rootSessionId targetType sessionId : string) : CRSession :=
  {| _connection := ConnThis; _callbacks := [];
     _targetType := targetType; _sessionId := sessionId;
     _rootSessionId := rootSessionId; _crashed := false |}.

(** [new CRConnection(transport, logger)] on a fresh transport: both hooks
    are bound and the root session is registered under the empty id. *)
Definition new_CRConnection (sync logEnabled : bool) : World :=
  {| connection := {| _lastId := 0; _sessions := [("", 0%nat)];
                      rootSession := 0%nat; _closed := false |};
     transport := {| onmessage := true; onclose := true; sent := [];
                     closeCalls := 0; syncClose := sync |};
     logger := {| isLogEnabled := logEnabled; logged := [] |};
     heap := [new_CRSession "" "browser" ""];
     nextPromise := 0%nat;
     settled := [];
     microtasks := [] |}.

(** [session(sessionId)]: [this._sessions.get(sessionId) || null]. *)
Definition CRConnection_session (sessionId : string) (w : World) : option ref :=
  JSMap.get sessionId (_sessions (connection w)).

(** [_rawSend(sessionId, method, params)]. *)
Definition CRConnection_rawSend (sessionId method : string)
    (params : option JSValue) (w : World) : Z * World :=
  let id := _lastId (connection w) + 1 in
  let w := set_connection (set_lastId id (connection w)) w in
  let message :=
    {| ProtocolRequest.id := id;
       ProtocolRequest.method := method;
       ProtocolRequest.params := params;
       ProtocolRequest.sessionId :=
         if truthy_str sessionId then Some sessionId else None |} in
  let w := log_line (LogSend message) w in
  let w := transport_send message w in
  (id, w).

(** [_markAsCrashed()]. *)
Definition CRSession_markAsCrashed (r : ref) (w : World) : World :=
  match heap w !! r with
  | Some s => store_session r (set_crashed true s) w
  | None => w
  end.

(** [send(method, params)], called from [site].  [Throw] is the rejection
    of the promise of the async function by an exception of its body; [Ok p]
    is the promise whose [resolve] and [reject] were put in [_callbacks]. *)
Definition CRSession_send (r : ref) (method : string) (params : option JSValue)
    (site : CallSite) : M PromiseRef := fun w =>
  match heap w !! r with
  | None => (w, Throw NoSuchObject)
  | Some s =>
      if _crashed s then
        (w, Throw (ErrorExn (new_Error "Target crashed" site)))
      else match _connection s with
      | ConnNull =>
          (w, Throw (ErrorExn (new_Error
             ("Protocol error (" +:+ method +:+
              "): Session closed. Most likely the " +:+ _targetType s +:+
              " has been closed.") site)))
      | ConnThis =>
          let '(id, w) := CRConnection_rawSend (_sessionId s) method params w in
          let p := nextPromise w in
          let w := set_nextPromise (S p) w in
          let callback := {| cb_promise := p; cb_error := new_Error "" site;
                             cb_method := method |} in
          (store_session r (set_callbacks (JSMap.set id callback (_callbacks s)) s) w,
           Ok p)
      end
  end.

Definition createProtocolError (error : JSError) (method : string)
    (protocolError : ProtocolError.t) : JSError :=
  let message :=
    "Protocol error (" +:+ method +:+ "): " +:+ ProtocolError.message protocolError in
  let message :=
    match ProtocolError.data protocolError with
    | Some data => message +:+ " " +:+ js_toString data
    | None => message
    end in
  rewriteErrorMessage error message.

(** The pending call an envelope answers: [object.id && _callbacks.has(object.id)],
    then [_callbacks.get(object.id)]. *)
Definition matching_callback (object : ProtocolResponse.t) (s : CRSession)
    : option (Z * Callback) :=
  match ProtocolResponse.id object with
  | Some i =>
      if truthy_num (Some i) && JSMap.has i (_callbacks s)
      then (fun cb => (i, cb)) <$> JSMap.get i (_callbacks s)
      else None
  | None => None
  end.

(** [CRSession._onMessage(object)]. *)
Definition CRSession_onMessage (r : ref) (object : ProtocolResponse.t) : M unit :=
  fun w =>
  match heap w !! r with
  | None => (w, Throw NoSuchObject)
  | Some s =>
      match matching_callback object s with
      | Some (i, callback) =>
          let w := store_session r (set_callbacks (JSMap.delete i (_callbacks s)) s) w in
          match ProtocolResponse.error object with
          | Some e =>
              (settle (cb_promise callback)
                 (Rejected (createProtocolError (cb_error callback)
                              (cb_method callback) e)) w, Ok tt)
          | None =>
              (settle (cb_promise callback)
                 (Resolved (default JUndefined (ProtocolResponse.result object))) w,
               Ok tt)
          end
      | None =>
          if truthy_num (ProtocolResponse.id object)
          then (w, Throw AssertionFailed)
          else (defer (EmitOnSession r (EvMethod (ProtocolResponse.method object))
                         (ProtocolResponse.params object)) w, Ok tt)
      end
  end.

Definition target_closed_error (callback : Callback) : JSError :=
  rewriteErrorMessage (cb_error callback)
    ("Protocol error (" +:+ cb_method callback +:+ "): Target closed.").

(** [CRSession._onClosed()]. *)
Definition CRSession_onClosed (r : ref) (w : World) : World :=
  match heap w !! r with
  | None => w
  | Some s =>
      let w := foldl (fun w callback =>
                        settle (cb_promise callback)
                          (Rejected (target_closed_error callback)) w)
                 w (JSMap.values (_callbacks s)) in
      let w := store_session r
                 (set_connectionRef ConnNull
                    (set_callbacks (JSMap.clear (_callbacks s)) s)) w in
      defer (EmitOnSession r EvDisconnected None) w
  end.

(** [detach()], called from [site]. *)
Definition CRSession_detach (r : ref) (site : CallSite) : M unit := fun w =>
  match heap w !! r with
  | None => (w, Throw NoSuchObject)
  | Some s =>
      match _connection s with
      | ConnNull =>
          (w, Throw (ErrorExn (new_Error
             ("Session already detached. Most likely the " +:+ _targetType s +:+
              " has been closed.") site)))
      | ConnThis =>
          match CRConnection_session (_rootSessionId s) w with
          | None =>
              (w, Throw (ErrorExn (new_Error "Root session has been closed" site)))
          | Some root =>
              (do_ CRSession_send root "Target.detachFromTarget"
                     (Some (JObj [("sessionId", JStr (_sessionId s))])) site;
               ret tt) w
          end
      end
  end.

(** The lifecycle part of [CRConnection._onMessage]: the registry changes of
    an attach or detach notification. *)
Definition lifecycle (message : ProtocolResponse.t) : M unit := fun w =>
  if decide (ProtocolResponse.method message = Some "Target.attachedToTarget") then
    match ProtocolResponse.params message with
    | Some (AttachedPayload sessionId type) =>
        let rootSessionId := or_empty (ProtocolResponse.sessionId message) in
        let '(session, w) :=
          alloc_session (new_CRSession rootSessionId type sessionId) w in
        (set_connection
           (set_sessions (JSMap.set sessionId session (_sessions (connection w)))
              (connection w)) w, Ok tt)
    | _ => (w, Throw TypeErrorExn)
    end
  else if decide (ProtocolResponse.method message = Some "Target.detachedFromTarget") then
    match ProtocolResponse.params message with
    | None => (w, Throw TypeErrorExn)
    | Some p =>
        match params_sessionId p with
        | None => (w, Ok tt)
        | Some sessionId =>
            match JSMap.get sessionId (_sessions (connection w)) with
            | Some session =>
                let w := CRSession_onClosed session w in
                (set_connection
                   (set_sessions (JSMap.delete sessionId (_sessions (connection w)))
                      (connection w)) w, Ok tt)
            | None => (w, Ok tt)
            end
        end
    end
  else (w, Ok tt).

(** [CRConnection._onMessage(message)]. *)
Definition CRConnection_onMessage (message : ProtocolResponse.t) : M unit :=
  do_ modify (log_line (LogRecv message));
  if decide (ProtocolResponse.id message = Some kBrowserCloseMessageId) then ret tt
  else
    do_ lifecycle message;
    fun w =>
      match JSMap.get (or_empty (ProtocolResponse.sessionId message))
              (_sessions (connection w)) with
      | Some session => CRSession_onMessage session message w
      | None => (w, Ok tt)
      end.

(** [CRConnection._onClose()]. *)
Definition CRConnection_onClose (w : World) : World :=
  let w := set_connection (set_closed true (connection w)) w in
  let w := set_transport
             {| onmessage := false; onclose := false;
                sent := sent (transport w);
                closeCalls := closeCalls (transport w);
                syncClose := syncClose (transport w) |} w in
  let w := foldl (fun w session => CRSession_onClosed session w) w
             (JSMap.values (_sessions (connection w))) in
  let w := set_connection
             (set_sessions (JSMap.clear (_sessions (connection w))) (connection w))
             w in
  defer (EmitOnConnection EvDisconnected) w.

(** The transport runs its close hook, when one is assigned. *)
Definition transport_closed (w : World) : World :=
  if onclose (transport w) then CRConnection_onClose w else w.

(** The transport hands a frame to its message hook, when one is assigned. *)
Definition transport_deliver (message : ProtocolResponse.t) (w : World) : World :=
  if onmessage (transport w) then fst (CRConnection_onMessage message w) else w.

(** [this._transport.close()]. *)
Definition transport_close (w : World) : World :=
  let w := set_transport
             {| onmessage := onmessage (transport w);
                onclose := onclose (transport w);
                sent := sent (transport w);
                closeCalls := S (closeCalls (transport w));
                syncClose := syncClose (transport w) |} w in
  if syncClose (transport w) then transport_closed w else w.

(** [CRConnection.close()]. *)
Definition CRConnection_close (w : World) : World :=
  if negb (_closed (connection w)) then transport_close w else w.

(** ** Runs *)

(** What callers and the transport do to a connection, one at a time (the
    run loop is single-threaded). *)
Inductive Action :=
  | ASend (r : ref) (method : string) (params : option JSValue) (site : CallSite)
  | AMarkAsCrashed (r : ref)
  | ADetach (r : ref) (site : CallSite)
  | AClose
  | AFrame (message : ProtocolResponse.t)
  | ATransportClosed.

Definition step (w : World) (a : Action) : World :=
  match a with
  | ASend r method params site => fst (CRSession_send r method params site w)
  | AMarkAsCrashed r => CRSession_markAsCrashed r w
  | ADetach r site => fst (CRSession_detach r site w)
  | AClose => CRConnection_close w
  | AFrame message => transport_deliver message w
  | ATransportClosed => transport_closed w
  end.

Definition run (acts : list Action) (w : World) : World := foldl step w acts.

(** The ids of the requests handed to the transport, oldest first. *)
Definition sent_ids (w : World) : list Z :=
  map ProtocolRequest.id (sent (transport w)).

(** ** Invariants of the store *)

(** The promises of the calls pending in a session. *)
Definition session_promises (s : CRSession) : list PromiseRef :=
  cb_promise <$> JSMap.values (_callbacks s).

(** How often [resolve] or [reject] of promise [p] has been called. *)
Definition settle_count (p : PromiseRef) (w : World) : nat :=
  length (filter (fun e => e.1 = p) (settled w)).

(** Promises and pending calls: a promise is settled at most once, a pending
    call is unsettled, and no two pending calls share a promise. *)
Record PromInv (h : list CRSession) (st : list (PromiseRef * Settlement))
    (n : PromiseRef) : Prop := {
  settled_once : NoDup st.*1;
  settled_known : forall p, p ∈ st.*1 -> (p < n)%nat;
  pending_distinct : forall r s, h !! r = Some s -> NoDup (session_promises s);
  pending_known : forall r s p,
    h !! r = Some s -> p ∈ session_promises s -> (p < n)%nat;
  pending_unsettled : forall r s p,
    h !! r = Some s -> p ∈ session_promises s -> p ∉ st.*1;
  pending_owned : forall r1 r2 s1 s2 p,
    h !! r1 = Some s1 -> h !! r2 = Some s2 ->
    p ∈ session_promises s1 -> p ∈ session_promises s2 -> r1 = r2 }.

(** Request ids: the counter bounds every id handed out, whether it is on
    the wire or the key of a pending call. *)
Record IdInv (h : list CRSession) (ids : list Z) (lastId : Z) : Prop := {
  lastId_nonneg : 0 <= lastId;
  sent_increasing : StronglySorted Z.lt ids;
  sent_issued : forall i, i ∈ ids -> 1 <= i <= lastId;
  keys_issued : forall r s i,
    h !! r = Some s -> i ∈ JSMap.keys (_callbacks s) -> 1 <= i <= lastId }.

Definition Inv (w : World) : Prop :=
  PromInv (heap w) (settled w) (nextPromise w) /\
  IdInv (heap w) (sent_ids w) (_lastId (connection w)).

(** A session after [_onClosed]. *)
Definition closed_session (s : CRSession) : CRSession :=
  set_connectionRef ConnNull (set_callbacks (JSMap.clear (_callbacks s)) s).

(** The rejections [_onClosed] makes, in the order of the pending calls. *)
Definition reject_all (s : CRSession) : list (PromiseRef * Settlement) :=
  (fun callback => (cb_promise callback, Rejected (target_closed_error callback)))
    <$> JSMap.values (_callbacks s).

(** What [send] throws on a session that is crashed or has no connection. *)
Definition send_failure (s : CRSession) (method : string) (site : CallSite) : Exn :=
  if _crashed s then ErrorExn (new_Error "Target crashed" site)
  else ErrorExn (new_Error
         ("Protocol error (" +:+ method +:+
          "): Session closed. Most likely the " +:+ _targetType s +:+
          " has been closed.") site).

(** ** How the store evolves *)

(** What never changes in a session, and what changes one way only. *)
Record SessionEvolves (s s' : CRSession) : Prop := {
  se_targetType : _targetType s' = _targetType s;
  se_sessionId : _sessionId s' = _sessionId s;
  se_rootSessionId : _rootSessionId s' = _rootSessionId s;
  se_crashed : _crashed s = true -> _crashed s' = true;
  se_connection : _connection s = ConnNull -> _connection s' = ConnNull;
  se_callbacks : _connection s = ConnNull -> _callbacks s = [] -> _callbacks s' = [] }.

Definition HeapEvolves (h h' : list CRSession) : Prop :=
  forall r s, h !! r = Some s -> exists s', h' !! r = Some s' /\ SessionEvolves s s'.

Record Evolves (w w' : World) : Prop := {
  ev_lastId : _lastId (connection w) <= _lastId (connection w');
  ev_sent : sent (transport w) `prefix_of` sent (transport w');
  ev_settled : settled w `prefix_of` settled w';
  ev_rootSession : rootSession (connection w') = rootSession (connection w);
  ev_syncClose : syncClose (transport w') = syncClose (transport w);
  ev_closed : _closed (connection w) = true -> _closed (connection w') = true;
  ev_closeCalls : _closed (connection w) = true ->
    closeCalls (transport w') = closeCalls (transport w);
  ev_heap : HeapEvolves (heap w) (heap w') }.

(** ** The root session *)

(** An attach or detach notification whose target session id is the empty
    id, under which the root session is registered. *)
Definition names_root (message : ProtocolResponse.t) : bool :=
  (bool_decide (ProtocolResponse.method message = Some "Target.attachedToTarget")
   || bool_decide (ProtocolResponse.method message = Some "Target.detachedFromTarget"))
  && match ProtocolResponse.params message with
     | Some p => bool_decide (params_sessionId p = Some "")
     | None => false
     end.

Definition respects_root (a : Action) : bool :=
  match a with
  | AFrame message => negb (names_root message)
  | _ => true
  end.

(** While the connection is open the root session is registered under "". *)
Definition RootInv (w : World) : Prop :=
  _closed (connection w) = false ->
  CRConnection_session "" w = Some (rootSession (connection w)).

(** The registry, the closed flag and the root reference are untouched. *)
Definition RegistryKept (w w' : World) : Prop :=
  _sessions (connection w') = _sessions (connection w) /\
  _closed (connection w') = _closed (connection w) /\
  rootSession (connection w') = rootSession (connection w).

(** ** Sample frames and runs *)

Module Samples.
Definition frame (id : option Z) (method : option string)
    (sessionId : option string) (params : option Params) : ProtocolResponse.t :=
  {| ProtocolResponse.id := id; ProtocolResponse.method := method;
     ProtocolResponse.sessionId := sessionId; ProtocolResponse.error := None;
     ProtocolResponse.params := params; ProtocolResponse.result := None |}.

(** {method: "Target.attachedToTarget", params: {sessionId, targetInfo: {type: "page"}}} *)
Definition attached (sessionId : string) : ProtocolResponse.t :=
  frame None (Some "Target.attachedToTarget") None
    (Some (AttachedPayload sessionId "page")).

(** {method: "Target.detachedFromTarget", params: {sessionId}} *)
Definition detached (sessionId : string) : ProtocolResponse.t :=
  frame None (Some "Target.detachedFromTarget") None
    (Some (DetachedPayload sessionId)).


(** {id: 0, method: "Foo.baz", params: {x: 1}} *)
Definition zero_id : ProtocolResponse.t :=
  frame (Some 0) (Some "Foo.baz") None
    (Some (OtherPayload (JObj [("x", JNum 1)]))).

(** {id: -9999, method: "Target.detachedFromTarget", params: {sessionId: "S"}} *)
Definition browser_close_ack : ProtocolResponse.t :=
  frame (Some kBrowserCloseMessageId) (Some "Target.detachedFromTarget") None
    (Some (DetachedPayload "S")).

(** Session "S" is attached (at address 1) and has two calls in flight. *)
Definition two_pending : list Action :=
  [AFrame (attached "S");
   ASend 1%nat "Foo.bar" None "app.ts:10";
   ASend 1%nat "Foo.baz" None "app.ts:11"].


(** A connection just constructed, on a transport whose [close()] returns
    before the close hook runs, with protocol logging off. *)
Definition fresh : World := new_CRConnection false false.

Definition call (p : PromiseRef) (method : string) (site : CallSite) : Callback :=
  {| cb_promise := p; cb_error := new_Error "" site; cb_method := method |}.

(** Session "S" with its two calls in flight. *)
Definition S_busy : CRSession :=
  {| _connection := ConnThis;
     _callbacks := [(1, call 0%nat "Foo.bar" "app.ts:10");
                    (2, call 1%nat "Foo.baz" "app.ts:11")];
     _targetType := "page"; _sessionId := "S"; _rootSessionId := "";
     _crashed := false |}.

End Samples.

(** ** Further methods *)







(** [CRConnection.fromSession(session)]: [session._connection!]. *)
Definition CRConnection_fromSession (r : ref) (w : World) : option ConnectionRef :=
  _connection <$> heap w !! r.

(** The rejection handler of [_sendMayFail], run with the rejection [error]:
    [if (this._connection) this._connection._logger._log(errorLog, error, [])].
    [errorLog] is what the logger was given in its error category. *)
Definition sendMayFail_onRejected (r : ref) (error : Exn) (w : World)
    (errorLog : list Exn) : list Exn :=
  match heap w !! r with
  | Some s =>
      match _connection s with
      | ConnThis => errorLog ++ [error]
      | ConnNull => errorLog
      end
  | None => errorLog
  end.

(** ** Further invariants *)

(** The [sessionId] a request carries on the wire: none for the root. *)
Definition wire_tag (sessionId : string) : option string :=
  if truthy_str sessionId then Some sessionId else None.

(** Pending calls against the wire: a session without connection has none,
    every pending call is the answer awaited by a request on the wire, and
    no id is pending in two sessions. *)
Record CallInv (h : list CRSession) (wire : list ProtocolRequest.t) : Prop := {
  dead_empty : forall r s,
    h !! r = Some s -> _connection s = ConnNull -> _callbacks s = [];
  on_the_wire : forall r s i callback,
    h !! r = Some s -> JSMap.get i (_callbacks s) = Some callback ->
    exists request, request ∈ wire /\
      ProtocolRequest.id request = i /\
      ProtocolRequest.method request = cb_method callback /\
      ProtocolRequest.sessionId request = wire_tag (_sessionId s);
  keys_apart : forall r1 r2 s1 s2 i,
    h !! r1 = Some s1 -> h !! r2 = Some s2 ->
    i ∈ JSMap.keys (_callbacks s1) -> i ∈ JSMap.keys (_callbacks s2) -> r1 = r2 }.

Definition CallInvW (w : World) : Prop := CallInv (heap w) (sent (transport w)).

(** The registry: a registered session is allocated, carries the id it is
    registered under and has its connection; no session is registered
    twice; a closed connection has no session and no hook on the transport. *)
Record RegInv (w : World) : Prop := {
  reg_live : forall k r,
    CRConnection_session k w = Some r ->
    exists s, heap w !! r = Some s /\ _sessionId s = k /\ _connection s = ConnThis;
  reg_distinct : NoDup (JSMap.values (_sessions (connection w)));
  reg_keys : NoDup (JSMap.keys (_sessions (connection w)));
  reg_closed : _closed (connection w) = true -> _sessions (connection w) = [];
  hook_onmessage : onmessage (transport w) = negb (_closed (connection w));
  hook_onclose : onclose (transport w) = negb (_closed (connection w)) }.

(** Sessions keep their id and their connection, and the connection keeps
    its registry, its flag and its hooks. *)
Record Undisturbed (w w' : World) : Prop := {
  und_registry : RegistryKept w w';
  und_onmessage : onmessage (transport w') = onmessage (transport w);
  und_onclose : onclose (transport w') = onclose (transport w);
  und_heap : forall r s, heap w !! r = Some s ->
    exists s', heap w' !! r = Some s' /\ _sessionId s' = _sessionId s /\
               _connection s' = _connection s }.

(** A frame that is neither lifecycle notification nor the browser-close
    acknowledgement. *)
Definition ordinary (message : ProtocolResponse.t) : Prop :=
  ProtocolResponse.id message <> Some kBrowserCloseMessageId /\
  ProtocolResponse.method message <> Some "Target.attachedToTarget" /\
  ProtocolResponse.method message <> Some "Target.detachedFromTarget".

(** ** Further sample frames and runs *)

Module Scenarios.
(** Session "S" attached with two calls in flight, as in [Samples]. *)
Definition busy : World := run Samples.two_pending Samples.fresh.

(** The same after the detach notification for "S". *)
Definition detached : World :=
  run (Samples.two_pending ++ [AFrame (Samples.detached "S")]) Samples.fresh.

(** Session "S" once closed. *)
Definition S_closed : CRSession := closed_session Samples.S_busy.

(** The root session of a new connection. *)
Definition root_idle : CRSession := new_CRSession "" "browser" "".

(** {id: 1} addressed to the root session, while call 1 is pending in "S". *)
Definition misrouted : ProtocolResponse.t := Samples.frame (Some 1) None None None.

(** {id: 1, sessionId: "S"} *)
Definition late_reply : ProtocolResponse.t :=
  Samples.frame (Some 1) None (Some "S") None.

(** {method: "Foo.baz", sessionId: "S", params: {x: 1}} *)
Definition event : ProtocolResponse.t :=
  Samples.frame None (Some "Foo.baz") (Some "S")
    (Some (OtherPayload (JObj [("x", JNum 1)]))).



(** The transport has closed while the two calls were in flight. *)
Definition closed_acts : list Action := Samples.two_pending ++ [ATransportClosed].
End Scenarios.

(** * Properties *)

(** ** Ordered maps *)

Module JSMapFacts.
Import JSMap.
Section JSMapFacts.
Context {K V : Type} `{EqDecision K}.
Implicit Types (k : K) (v : V) (m : JSMap.t K V).

Lemma get_set_eq k v m : get k (set k v m) = Some v.
Proof.
  induction m as [|[k' v'] m IH]; simpl.
  - by rewrite decide_True.
  - destruct (decide (k' = k)) as [->|Hne]; simpl.
    + by rewrite decide_True.
    + by rewrite decide_False.
Qed.

Lemma get_set_ne k k' v m : k <> k' -> get k' (set k v m) = get k' m.
Proof.
  intros Hne. induction m as [|[k0 v0] m IH]; simpl.
  - by rewrite decide_False.
  - destruct (decide (k0 = k)) as [->|Hne0]; simpl.
    + by rewrite !decide_False.
    + by rewrite IH.
Qed.

Lemma get_delete_eq k m : get k (delete k m) = None.
Proof.
  induction m as [|[k' v'] m IH]; simpl; [done|].
  destruct (decide (k' = k)) as [->|Hne]; simpl; [done|].
  by rewrite decide_False.
Qed.

Lemma get_delete_ne k k' m : k <> k' -> get k' (delete k m) = get k' m.
Proof.
  intros Hne. induction m as [|[k0 v0] m IH]; simpl; [done|].
  destruct (decide (k0 = k)) as [->|Hne0]; simpl.
  - by rewrite decide_False.
  - by rewrite IH.
Qed.

Lemma has_true k m : has k m = true <-> is_Some (get k m).
Proof. unfold has. by rewrite bool_decide_eq_true. Qed.

Lemma has_false k m : has k m = false <-> get k m = None.
Proof.
  unfold has. rewrite bool_decide_eq_false.
  by rewrite <- eq_None_not_Some.
Qed.

Lemma get_Some_entry k v m : get k m = Some v -> (k, v) ∈ m.
Proof.
  induction m as [|[k' v'] m IH]; simpl; [done|].
  destruct (decide (k' = k)) as [->|Hne].
  - intros [= ->]. left.
  - intros H. right. auto.
Qed.

Lemma get_Some_key k v m : get k m = Some v -> k ∈ keys m.
Proof.
  intros H. apply get_Some_entry in H.
  unfold keys. by apply (list_elem_of_fmap_2 fst) in H.
Qed.

Lemma get_Some_value k v m : get k m = Some v -> v ∈ values m.
Proof.
  intros H. apply get_Some_entry in H.
  unfold values. by apply (list_elem_of_fmap_2 snd) in H.
Qed.

Lemma get_None_key k m : get k m = None <-> k ∉ keys m.
Proof.
  induction m as [|[k' v'] m IH]; simpl.
  - split; [intros _; apply not_elem_of_nil | done].
  - rewrite not_elem_of_cons. destruct (decide (k' = k)) as [->|Hne].
    + split; [done | intros [? _]; done].
    + rewrite IH. split; [intros ?; split; [congruence | done] | intros [_ ?]; done].
Qed.

Lemma keys_set k v m k' : k' ∈ keys (set k v m) -> k' = k \/ k' ∈ keys m.
Proof.
  induction m as [|[k0 v0] m IH]; simpl.
  - rewrite list_elem_of_singleton. auto.
  - destruct (decide (k0 = k)) as [->|Hne]; simpl; rewrite !elem_of_cons.
    + intros [->|?]; auto.
    + intros [->|?]; auto. destruct IH as [?|?]; auto.
Qed.

Lemma keys_delete k m k' : k' ∈ keys (delete k m) -> k' ∈ keys m.
Proof.
  induction m as [|[k0 v0] m IH]; simpl; [done|].
  destruct (decide (k0 = k)) as [->|Hne]; simpl; rewrite !elem_of_cons; auto.
  intros [->|?]; auto.
Qed.

Lemma values_delete k m v : v ∈ values (delete k m) -> v ∈ values m.
Proof.
  induction m as [|[k0 v0] m IH]; simpl; [done|].
  destruct (decide (k0 = k)) as [->|Hne]; simpl; rewrite !elem_of_cons; auto.
  intros [->|?]; auto.
Qed.

(** What [set] does to the values, seen through [f]. *)
Lemma values_set {B} (f : V -> B) k v m b :
  b ∈ f <$> values (set k v m) -> b = f v \/ b ∈ f <$> values m.
Proof.
  induction m as [|[k0 v0] m IH]; simpl.
  - rewrite list_elem_of_singleton. auto.
  - destruct (decide (k0 = k)) as [->|Hne]; simpl; rewrite !elem_of_cons.
    + intros [->|?]; auto.
    + intros [->|?]; auto. destruct IH as [?|?]; auto.
Qed.

Lemma NoDup_values_set {B} (f : V -> B) k v m :
  NoDup (f <$> values m) -> f v ∉ f <$> values m ->
  NoDup (f <$> values (set k v m)).
Proof.
  induction m as [|[k0 v0] m IH]; simpl.
  - intros _ _. apply NoDup_singleton.
  - rewrite NoDup_cons, not_elem_of_cons. intros [Hv0 Hnd] [Hne Hfresh].
    destruct (decide (k0 = k)) as [->|Hk]; simpl; rewrite NoDup_cons.
    + done.
    + split; [|by apply IH].
      intros Hin. apply values_set in Hin as [?|?]; [congruence|done].
Qed.

Lemma NoDup_values_delete {B} (f : V -> B) k m :
  NoDup (f <$> values m) -> NoDup (f <$> values (delete k m)).
Proof.
  induction m as [|[k0 v0] m IH]; simpl; [done|].
  rewrite NoDup_cons. intros [Hv0 Hnd].
  destruct (decide (k0 = k)) as [->|Hk]; simpl; [by apply IH|].
  rewrite NoDup_cons. split; [|by apply IH].
  intros Hin. apply Hv0.
  apply list_elem_of_fmap in Hin as (x & -> & Hx).
  apply list_elem_of_fmap_2. by eapply values_delete.
Qed.

(** The value found under [k] is gone, seen through [f], once [k] is
    deleted (values are told apart by [f]). *)
Lemma deleted_value_gone {B} (f : V -> B) k v m :
  NoDup (f <$> values m) -> get k m = Some v ->
  f v ∉ f <$> values (delete k m).
Proof.
  induction m as [|[k0 v0] m IH]; simpl; [done|].
  rewrite NoDup_cons. intros [Hv0 Hnd].
  destruct (decide (k0 = k)) as [->|Hk]; simpl.
  - intros [= ->] Hin. apply Hv0.
    apply list_elem_of_fmap in Hin as (x & -> & Hx).
    apply list_elem_of_fmap_2. by eapply values_delete.
  - intros Hget. rewrite not_elem_of_cons. split; [|by apply IH].
    intros Heq. apply Hv0. rewrite <- Heq.
    apply list_elem_of_fmap_2. by eapply get_Some_value.
Qed.

Lemma NoDup_keys_set k v m : NoDup (keys m) -> NoDup (keys (set k v m)).
Proof.
  induction m as [|[k0 v0] m IH]; simpl.
  - intros _. apply NoDup_singleton.
  - rewrite NoDup_cons. intros [Hk0 Hnd].
    destruct (decide (k0 = k)) as [->|Hk]; simpl; rewrite NoDup_cons; [done|].
    split; [|by apply IH].
    intros Hin. apply keys_set in Hin as [?|?]; [congruence|done].
Qed.

Lemma NoDup_keys_delete k m : NoDup (keys m) -> NoDup (keys (delete k m)).
Proof.
  induction m as [|[k0 v0] m IH]; simpl; [done|].
  rewrite NoDup_cons. intros [Hk0 Hnd].
  destruct (decide (k0 = k)) as [->|Hk]; simpl; [by apply IH|].
  rewrite NoDup_cons. split; [|by apply IH].
  intros Hin. apply Hk0. by eapply keys_delete.
Qed.
End JSMapFacts.
End JSMapFacts.

(** ** Effects of the primitives *)

Lemma set_settled_id w : set_settled (settled w) w = w.
Proof. by destruct w. Qed.

Lemma foldl_settle {A} (f : A -> PromiseRef * Settlement) (l : list A) w :
  foldl (fun w a => settle (f a).1 (f a).2 w) w l
  = set_settled (settled w ++ (f <$> l)) w.
Proof.
  revert w. induction l as [|a l IH]; intros w; simpl.
  - by rewrite app_nil_r, set_settled_id.
  - rewrite IH. unfold settle, set_settled; simpl.
    destruct (f a); simpl. by rewrite <- app_assoc.
Qed.

Lemma lookup_store (h : list CRSession) r s s' r' x :
  h !! r = Some s -> <[r := s']> h !! r' = Some x ->
  (r' = r /\ x = s') \/ (r' <> r /\ h !! r' = Some x).
Proof.
  intros Hr Hx. destruct (decide (r' = r)) as [->|Hne].
  - left. split; [done|].
    rewrite list_lookup_insert_eq in Hx by (by eapply lookup_lt_Some).
    congruence.
  - right. split; [done|]. by rewrite list_lookup_insert_ne in Hx.
Qed.

Lemma lookup_store_eq (h : list CRSession) r s s' :
  h !! r = Some s -> <[r := s']> h !! r = Some s'.
Proof. intros Hr. apply list_lookup_insert_eq. by eapply lookup_lt_Some. Qed.

Lemma lookup_alloc (h : list CRSession) s r x :
  (h ++ [s]) !! r = Some x ->
  (r = length h /\ x = s) \/ (r <> length h /\ h !! r = Some x).
Proof.
  intros Hx. destruct (decide (r < length h)%nat) as [Hlt|Hge].
  - right. rewrite lookup_app_l in Hx by done. split; [lia|done].
  - rewrite lookup_app_r in Hx by lia.
    destruct (r - length h)%nat as [|k] eqn:Hk; simpl in Hx; [|done].
    left. split; [lia|congruence].
Qed.

(** [_rawSend] touches the counter, the transport and the logger only. *)
Lemma rawSend_fst sid method params w :
  (CRConnection_rawSend sid method params w).1 = _lastId (connection w) + 1.
Proof. reflexivity. Qed.

Lemma rawSend_lastId sid method params w :
  _lastId (connection (CRConnection_rawSend sid method params w).2)
  = _lastId (connection w) + 1.
Proof.
  unfold CRConnection_rawSend, log_line; simpl.
  by destruct (isLogEnabled (logger w)).
Qed.

Lemma rawSend_sent_ids sid method params w :
  sent_ids (CRConnection_rawSend sid method params w).2
  = sent_ids w ++ [_lastId (connection w) + 1].
Proof.
  unfold CRConnection_rawSend, log_line, sent_ids; simpl.
  destruct (isLogEnabled (logger w)); simpl; by rewrite map_app.
Qed.

Lemma rawSend_frame sid method params w :
  let w' := (CRConnection_rawSend sid method params w).2 in
  heap w' = heap w /\ settled w' = settled w /\ nextPromise w' = nextPromise w /\
  microtasks w' = microtasks w /\
  _sessions (connection w') = _sessions (connection w) /\
  rootSession (connection w') = rootSession (connection w) /\
  _closed (connection w') = _closed (connection w) /\
  closeCalls (transport w') = closeCalls (transport w) /\
  onmessage (transport w') = onmessage (transport w) /\
  onclose (transport w') = onclose (transport w) /\
  syncClose (transport w') = syncClose (transport w).
Proof.
  unfold CRConnection_rawSend, log_line; simpl.
  by destruct (isLogEnabled (logger w)).
Qed.

Lemma onClosed_eq r s w :
  heap w !! r = Some s ->
  CRSession_onClosed r w
  = defer (EmitOnSession r EvDisconnected None)
      (store_session r (closed_session s)
         (set_settled (settled w ++ reject_all s) w)).
Proof.
  intros Hr. unfold CRSession_onClosed. rewrite Hr.
  by rewrite (foldl_settle
    (fun callback => (cb_promise callback, Rejected (target_closed_error callback)))).
Qed.

(** ** Promises *)

Section PromInv.
Implicit Types (h : list CRSession) (st : list (PromiseRef * Settlement)).

Lemma PromInv_initial s : session_promises s = [] -> PromInv [s] [] 0%nat.
Proof.
  intros Hs. split; simpl.
  - apply NoDup_nil_2.
  - intros p Hp. by apply elem_of_nil in Hp.
  - intros [|r] s' Hr; simpl in Hr; [|done].
    injection Hr as <-. rewrite Hs. apply NoDup_nil_2.
  - intros [|r] s' p Hr; simpl in Hr; [|done].
    injection Hr as <-. rewrite Hs. intros Hp. by apply elem_of_nil in Hp.
  - intros r s' p _ _. apply not_elem_of_nil.
  - intros [|r1] [|r2] s1 s2 p H1 H2; simpl in *; done.
Qed.

(** One session is replaced: some of its pending calls are settled, and
    the calls it gains have fresh promises. *)
Lemma PromInv_update h st n r s s' extra n' :
  PromInv h st n -> h !! r = Some s -> (n <= n')%nat ->
  NoDup extra.*1 ->
  (forall p, p ∈ extra.*1 -> p ∈ session_promises s /\ p ∉ session_promises s') ->
  NoDup (session_promises s') ->
  (forall p, p ∈ session_promises s' ->
     p ∈ session_promises s \/ (n <= p < n')%nat) ->
  PromInv (<[r := s']> h) (st ++ extra) n'.
Proof.
  intros [Hso Hsk Hpd Hpk Hpu Hpo] Hr Hn Hex Hextra Hnd' Hs'.
  assert (Hold : forall r' x p, r' <> r -> h !! r' = Some x ->
                   p ∈ session_promises x -> p ∉ extra.*1).
  { intros r' x p Hne Hx Hp Hin. apply Hextra in Hin as [Hin _].
    apply Hne. by eapply Hpo. }
  split.
  - rewrite fmap_app. apply NoDup_app. split_and!; [done| |done].
    intros p Hp Hin. apply Hextra in Hin as [Hin _]. by eapply Hpu.
  - intros p. rewrite fmap_app, elem_of_app. intros [Hp|Hp].
    + apply Hsk in Hp. lia.
    + apply Hextra in Hp as [Hp _]. eapply Hpk in Hp; [|done]. lia.
  - intros r' x Hx. eapply lookup_store in Hx as [[-> ->]|[Hne Hx]]; eauto.
  - intros r' x p Hx Hp. eapply lookup_store in Hx as [[-> ->]|[Hne Hx]]; [| |done].
    + apply Hs' in Hp as [Hp|Hp]; [|lia]. eapply Hpk in Hp; [|done]. lia.
    + eapply Hpk in Hp; [|done]. lia.
  - intros r' x p Hx Hp. rewrite fmap_app, not_elem_of_app.
    eapply lookup_store in Hx as [[-> ->]|[Hne Hx]]; [| |done].
    + split.
      * destruct (Hs' _ Hp) as [Hp'|Hp']; [by eapply Hpu|].
        intros Hin. apply Hsk in Hin. lia.
      * intros Hin. apply Hextra in Hin as [_ Hin]. done.
    + split; [by eapply Hpu | by eapply Hold].
  - intros r1 r2 s1 s2 p H1 H2 Hp1 Hp2.
    eapply lookup_store in H1 as [[-> ->]|[Hne1 H1]]; [| |done];
      (eapply lookup_store in H2 as [[-> ->]|[Hne2 H2]]; [| |done]); [done| | |].
    + destruct (Hs' _ Hp1) as [Hp|Hp].
      * symmetry. by eapply Hpo.
      * eapply Hpk in Hp2; [|done]. lia.
    + destruct (Hs' _ Hp2) as [Hp|Hp].
      * by eapply Hpo.
      * eapply Hpk in Hp1; [|done]. lia.
    + by eapply Hpo.
Qed.

(** A session is rewritten without touching its pending calls. *)
Lemma PromInv_store h st n r s s' :
  PromInv h st n -> h !! r = Some s ->
  session_promises s' = session_promises s ->
  PromInv (<[r := s']> h) st n.
Proof.
  intros HI Hr Heq. rewrite <- (app_nil_r st).
  eapply PromInv_update; eauto.
  - apply NoDup_nil_2.
  - intros p Hp. by apply elem_of_nil in Hp.
  - rewrite Heq. by eapply pending_distinct.
  - intros p. rewrite Heq. auto.
Qed.

(** A new session has no pending call. *)
Lemma PromInv_alloc h st n s :
  PromInv h st n -> session_promises s = [] -> PromInv (h ++ [s]) st n.
Proof.
  intros [Hso Hsk Hpd Hpk Hpu Hpo] Hs. split; [done|done|..].
  - intros r x Hx. apply lookup_alloc in Hx as [[-> ->]|[_ Hx]]; [|eauto].
    rewrite Hs. apply NoDup_nil_2.
  - intros r x p Hx. apply lookup_alloc in Hx as [[-> ->]|[_ Hx]]; [|eauto].
    rewrite Hs. intros Hp. by apply elem_of_nil in Hp.
  - intros r x p Hx. apply lookup_alloc in Hx as [[-> ->]|[_ Hx]]; [|eauto].
    rewrite Hs. intros Hp. by apply elem_of_nil in Hp.
  - intros r1 r2 s1 s2 p H1 H2.
    apply lookup_alloc in H1 as [[-> ->]|[_ H1]];
      apply lookup_alloc in H2 as [[-> ->]|[_ H2]]; try done.
    + rewrite Hs. intros Hp. by apply elem_of_nil in Hp.
    + rewrite Hs. intros _ Hp. by apply elem_of_nil in Hp.
    + eauto.
Qed.
End PromInv.

(** ** Request ids *)

Section IdInv.
Implicit Types (h : list CRSession) (ids : list Z).

Lemma StronglySorted_snoc ids i :
  StronglySorted Z.lt ids -> (forall j, j ∈ ids -> j < i) ->
  StronglySorted Z.lt (ids ++ [i]).
Proof.
  induction 1 as [|j ids Hs IH Hall]; intros Hlt; simpl.
  - repeat constructor.
  - constructor.
    + apply IH. intros k Hk. apply Hlt. by right.
    + apply Forall_app. split; [done|].
      constructor; [|constructor]. apply Hlt. left.
Qed.

(** One more id is issued and put on the wire. *)
Lemma IdInv_issue h ids lastId :
  IdInv h ids lastId -> IdInv h (ids ++ [lastId + 1]) (lastId + 1).
Proof.
  intros [Hn Hs Hi Hk]. split.
  - lia.
  - apply StronglySorted_snoc; [done|]. intros j Hj. apply Hi in Hj. lia.
  - intros i. rewrite elem_of_app, list_elem_of_singleton.
    intros [Hin| ->]; [apply Hi in Hin|]; lia.
  - intros r s i Hr Hin. eapply Hk in Hin; [|done]. lia.
Qed.

(** One session is replaced; the keys it gains have been issued. *)
Lemma IdInv_update h ids lastId r s s' :
  IdInv h ids lastId -> h !! r = Some s ->
  (forall i, i ∈ JSMap.keys (_callbacks s') ->
     i ∈ JSMap.keys (_callbacks s) \/ 1 <= i <= lastId) ->
  IdInv (<[r := s']> h) ids lastId.
Proof.
  intros [Hn Hs Hi Hk] Hr Hkeys. split; [done..|].
  intros r' x i Hx Hin. eapply lookup_store in Hx as [[-> ->]|[Hne Hx]]; [| |done].
  - apply Hkeys in Hin as [Hin|?]; [|done]. by eapply Hk.
  - by eapply Hk.
Qed.

Lemma IdInv_alloc h ids lastId s :
  IdInv h ids lastId -> _callbacks s = [] -> IdInv (h ++ [s]) ids lastId.
Proof.
  intros [Hn Hs Hi Hk] Hcb. split; [done..|].
  intros r x i Hx. apply lookup_alloc in Hx as [[-> ->]|[_ Hx]]; [|eauto].
  rewrite Hcb. intros Hin. by apply elem_of_nil in Hin.
Qed.
End IdInv.

(** ** What each method does *)

Lemma send_fails r s method params site w :
  heap w !! r = Some s ->
  _crashed s = true \/ _connection s = ConnNull ->
  CRSession_send r method params site w = (w, Throw (send_failure s method site)).
Proof.
  intros Hr Hdead. unfold CRSession_send, send_failure. rewrite Hr.
  destruct (_crashed s); [done|].
  destruct Hdead as [?| ->]; done.
Qed.

Lemma send_succeeds r s method params site w :
  heap w !! r = Some s -> _crashed s = false -> _connection s = ConnThis ->
  CRSession_send r method params site w
  = (store_session r
       (set_callbacks
          (JSMap.set (_lastId (connection w) + 1)
             {| cb_promise := nextPromise w; cb_error := new_Error "" site;
                cb_method := method |} (_callbacks s)) s)
       (set_nextPromise (S (nextPromise w))
          (CRConnection_rawSend (_sessionId s) method params w).2),
     Ok (nextPromise w)).
Proof.
  intros Hr Hc Hconn. unfold CRSession_send. rewrite Hr, Hc, Hconn.
  unfold CRConnection_rawSend, log_line; simpl.
  by destruct (isLogEnabled (logger w)).
Qed.

Lemma matching_callback_Some object s i callback :
  matching_callback object s = Some (i, callback) <->
  ProtocolResponse.id object = Some i /\ i <> 0 /\
  JSMap.get i (_callbacks s) = Some callback.
Proof.
  unfold matching_callback, truthy_num.
  destruct (ProtocolResponse.id object) as [j|]; [|naive_solver].
  destruct (Z.eqb_spec j 0) as [->|Hne]; simpl; [naive_solver|].
  destruct (JSMap.has j (_callbacks s)) eqn:Hhas.
  - destruct (JSMap.get j (_callbacks s)) as [cb|] eqn:Hget; simpl; naive_solver.
  - apply JSMapFacts.has_false in Hhas. naive_solver.
Qed.

Lemma matching_callback_None object s :
  matching_callback object s = None <->
  truthy_num (ProtocolResponse.id object) = false \/
  exists i, ProtocolResponse.id object = Some i /\
            JSMap.get i (_callbacks s) = None.
Proof.
  unfold matching_callback, truthy_num.
  destruct (ProtocolResponse.id object) as [j|]; [|naive_solver].
  destruct (Z.eqb_spec j 0) as [->|Hne]; simpl; [naive_solver|].
  destruct (JSMap.has j (_callbacks s)) eqn:Hhas.
  - apply JSMapFacts.has_true in Hhas as [cb Hget]. rewrite Hget. simpl.
    naive_solver.
  - apply JSMapFacts.has_false in Hhas. naive_solver.
Qed.

(** ** The invariants hold in every run *)

Lemma Inv_frame w w' :
  heap w' = heap w -> settled w' = settled w -> nextPromise w' = nextPromise w ->
  sent_ids w' = sent_ids w ->
  _lastId (connection w') = _lastId (connection w) ->
  Inv w -> Inv w'.
Proof. unfold Inv. by intros -> -> -> -> ->. Qed.

Lemma Inv_initial sync logEnabled : Inv (new_CRConnection sync logEnabled).
Proof.
  split; simpl.
  - by apply PromInv_initial.
  - split; simpl.
    + done.
    + constructor.
    + intros i Hi. by apply elem_of_nil in Hi.
    + intros [|r] s i Hr; simpl in Hr; [|done].
      injection Hr as <-. simpl. intros Hi. by apply elem_of_nil in Hi.
Qed.

Lemma Inv_rawSend sid method params w :
  Inv w -> Inv (CRConnection_rawSend sid method params w).2.
Proof.
  intros [HP HI].
  destruct (rawSend_frame sid method params w) as (Hh & Hs & Hn & _).
  split.
  - by rewrite Hh, Hs, Hn.
  - rewrite Hh, rawSend_sent_ids, rawSend_lastId. by apply IdInv_issue.
Qed.

Lemma Inv_send r method params site w :
  Inv w -> Inv (CRSession_send r method params site w).1.
Proof.
  intros HI. destruct (heap w !! r) as [s|] eqn:Hr;
    [|by unfold CRSession_send; rewrite Hr].
  destruct (_crashed s) eqn:Hc; [by erewrite send_fails by eauto|].
  destruct (_connection s) eqn:Hconn; [by erewrite send_fails by eauto|].
  erewrite send_succeeds by eauto.
  pose proof (Inv_rawSend (_sessionId s) method params w HI) as [HP' HI'].
  destruct (rawSend_frame (_sessionId s) method params w) as (Hh & Hs & Hn & _).
  pose proof (rawSend_lastId (_sessionId s) method params w) as Hl.
  remember (CRConnection_rawSend (_sessionId s) method params w).2 as w1 eqn:Hw1.
  clear Hw1. rewrite <- Hn, <- Hl.
  assert (Hr1 : heap w1 !! r = Some s) by by rewrite Hh.
  split; simpl.
  - rewrite <- (app_nil_r (settled w1)).
    eapply PromInv_update; eauto.
    + apply NoDup_nil_2.
    + intros p Hp. by apply elem_of_nil in Hp.
    + unfold session_promises; simpl. apply JSMapFacts.NoDup_values_set.
      * by eapply (pending_distinct _ _ _ HP').
      * simpl. intros Hin. eapply (pending_known _ _ _ HP') in Hin; [|done]. lia.
    + unfold session_promises at 1; simpl. intros p Hp.
      apply JSMapFacts.values_set in Hp as [->|Hp]; simpl; [right; lia | by left].
  - eapply IdInv_update; [exact HI' | exact Hr1 |]. simpl. intros i Hi.
    apply JSMapFacts.keys_set in Hi as [->|Hi]; [right|by left].
    pose proof (lastId_nonneg _ _ _ (proj2 HI)). lia.
Qed.

Lemma Inv_markAsCrashed r w : Inv w -> Inv (CRSession_markAsCrashed r w).
Proof.
  intros [HP HI]. unfold CRSession_markAsCrashed.
  destruct (heap w !! r) as [s|] eqn:Hr; [|done].
  split; simpl.
  - by eapply PromInv_store.
  - eapply IdInv_update; eauto.
Qed.

Lemma Inv_session_onMessage r object w :
  Inv w -> Inv (CRSession_onMessage r object w).1.
Proof.
  intros [HP HI]. unfold CRSession_onMessage.
  destruct (heap w !! r) as [s|] eqn:Hr; [|done].
  destruct (matching_callback object s) as [[i callback]|] eqn:Hm.
  - apply matching_callback_Some in Hm as (_ & _ & Hget).
    assert (Hgoal : forall o,
      Inv (settle (cb_promise callback) o
             (store_session r (set_callbacks (JSMap.delete i (_callbacks s)) s) w))).
    { intros o. split; simpl.
      - eapply PromInv_update with (extra := [(cb_promise callback, o)]); eauto.
        + apply NoDup_singleton.
        + simpl. intros p Hp. apply list_elem_of_singleton in Hp as ->. split.
          * apply list_elem_of_fmap_2. by eapply JSMapFacts.get_Some_value.
          * unfold session_promises; simpl.
            apply JSMapFacts.deleted_value_gone; [|done].
            by eapply (pending_distinct _ _ _ HP).
        + unfold session_promises; simpl. apply JSMapFacts.NoDup_values_delete.
          by eapply (pending_distinct _ _ _ HP).
        + unfold session_promises at 1; simpl. intros p Hp. left.
          apply list_elem_of_fmap in Hp as (x & -> & Hx).
          apply list_elem_of_fmap_2. by eapply JSMapFacts.values_delete.
      - eapply IdInv_update; eauto. simpl. intros j Hj. left.
        by eapply JSMapFacts.keys_delete. }
    destruct (ProtocolResponse.error object); apply Hgoal.
  - destruct (truthy_num (ProtocolResponse.id object)); by split.
Qed.

Lemma Inv_onClosed r w : Inv w -> Inv (CRSession_onClosed r w).
Proof.
  intros [HP HI]. destruct (heap w !! r) as [s|] eqn:Hr;
    [|by unfold CRSession_onClosed; rewrite Hr].
  rewrite (onClosed_eq _ _ _ Hr). split; simpl.
  - eapply PromInv_update; eauto.
    + unfold reject_all. rewrite <- list_fmap_compose.
      by eapply (pending_distinct _ _ _ HP).
    + unfold reject_all. rewrite <- list_fmap_compose. intros p Hp.
      split; [done|]. apply not_elem_of_nil.
    + apply NoDup_nil_2.
    + intros p Hp. by apply elem_of_nil in Hp.
  - eapply IdInv_update; eauto. simpl. intros i Hi. by apply elem_of_nil in Hi.
Qed.

Lemma Inv_lifecycle message w : Inv w -> Inv (lifecycle message w).1.
Proof.
  intros HI. unfold lifecycle.
  destruct (decide (ProtocolResponse.method message = Some "Target.attachedToTarget")).
  - destruct (ProtocolResponse.params message) as [[sid ty| |]|]; try done.
    destruct HI as [HP HId]. split; simpl.
    + by apply PromInv_alloc.
    + by apply IdInv_alloc.
  - destruct (decide (ProtocolResponse.method message
                      = Some "Target.detachedFromTarget")); [|done].
    destruct (ProtocolResponse.params message) as [p|]; [|done].
    destruct (params_sessionId p) as [sid|]; [|done].
    destruct (JSMap.get sid (_sessions (connection w))) as [session|]; [|done].
    simpl. eapply Inv_frame; [..|by apply (Inv_onClosed session)]; done.
Qed.

Lemma Inv_connection_onMessage message w :
  Inv w -> Inv (CRConnection_onMessage message w).1.
Proof.
  intros HI. unfold CRConnection_onMessage, bind, modify, ret.
  assert (HI1 : Inv (log_line (LogRecv message) w)).
  { eapply Inv_frame; [..|exact HI]; unfold log_line;
      by destruct (isLogEnabled (logger w)). }
  destruct (decide (ProtocolResponse.id message = Some kBrowserCloseMessageId));
    [done|].
  pose proof (Inv_lifecycle message _ HI1) as HI2.
  destruct (lifecycle message (log_line (LogRecv message) w)) as [w2 [[]|e]];
    simpl in HI2; [|done].
  destruct (JSMap.get _ (_sessions (connection w2))) as [session|]; [|done].
  by apply Inv_session_onMessage.
Qed.

Lemma Inv_fold_onClosed l w :
  Inv w -> Inv (foldl (fun w session => CRSession_onClosed session w) w l).
Proof.
  revert w. induction l as [|r l IH]; intros w HI; simpl; [done|].
  apply IH. by apply Inv_onClosed.
Qed.

Lemma Inv_onClose w : Inv w -> Inv (CRConnection_onClose w).
Proof.
  intros HI. unfold CRConnection_onClose.
  eapply Inv_frame; [..|eapply Inv_fold_onClosed; eapply Inv_frame; [..|exact HI]];
    done.
Qed.

Lemma Inv_transport_closed w : Inv w -> Inv (transport_closed w).
Proof.
  intros HI. unfold transport_closed.
  destruct (onclose (transport w)); [by apply Inv_onClose|done].
Qed.

Lemma Inv_close w : Inv w -> Inv (CRConnection_close w).
Proof.
  intros HI. unfold CRConnection_close, transport_close.
  destruct (negb (_closed (connection w))); [|done].
  assert (Inv (set_transport
             {| onmessage := onmessage (transport w);
                onclose := onclose (transport w);
                sent := sent (transport w);
                closeCalls := S (closeCalls (transport w));
                syncClose := syncClose (transport w) |} w))
    by (eapply Inv_frame; [..|exact HI]; done).
  destruct (syncClose _); [by apply Inv_transport_closed|done].
Qed.

Lemma Inv_detach r site w : Inv w -> Inv (CRSession_detach r site w).1.
Proof.
  intros HI. unfold CRSession_detach, bind, ret.
  destruct (heap w !! r) as [s|]; [|done].
  destruct (_connection s); [done|].
  destruct (CRConnection_session (_rootSessionId s) w) as [root|]; [|done].
  pose proof (Inv_send root "Target.detachFromTarget"
    (Some (JObj [("sessionId", JStr (_sessionId s))])) site w HI) as HI'.
  by destruct (CRSession_send _ _ _ _ w) as [w' [p|e]].
Qed.

Lemma Inv_step w a : Inv w -> Inv (step w a).
Proof.
  intros HI. destruct a; simpl.
  - by apply Inv_send.
  - by apply Inv_markAsCrashed.
  - by apply Inv_detach.
  - by apply Inv_close.
  - unfold transport_deliver. destruct (onmessage (transport w)); [|done].
    by apply Inv_connection_onMessage.
  - by apply Inv_transport_closed.
Qed.

Lemma Inv_run acts w : Inv w -> Inv (run acts w).
Proof.
  revert w. induction acts as [|a acts IH]; intros w HI; simpl; [done|].
  apply IH. by apply Inv_step.
Qed.

(** ** Monotonicity *)

Lemma SessionEvolves_refl s : SessionEvolves s s.
Proof. by split. Qed.

Lemma SessionEvolves_trans s1 s2 s3 :
  SessionEvolves s1 s2 -> SessionEvolves s2 s3 -> SessionEvolves s1 s3.
Proof.
  intros [Ht1 Hi1 Hr1 Hc1 Hn1 Hb1] [Ht2 Hi2 Hr2 Hc2 Hn2 Hb2].
  split; try congruence; auto.
Qed.

Lemma HeapEvolves_refl h : HeapEvolves h h.
Proof. intros r s Hr. exists s. split; [done|apply SessionEvolves_refl]. Qed.

Lemma HeapEvolves_trans h1 h2 h3 :
  HeapEvolves h1 h2 -> HeapEvolves h2 h3 -> HeapEvolves h1 h3.
Proof.
  intros H12 H23 r s Hr.
  destruct (H12 _ _ Hr) as (s2 & Hr2 & He2).
  destruct (H23 _ _ Hr2) as (s3 & Hr3 & He3).
  exists s3. split; [done|]. by eapply SessionEvolves_trans.
Qed.

Lemma HeapEvolves_store h r s s' :
  h !! r = Some s -> SessionEvolves s s' -> HeapEvolves h (<[r := s']> h).
Proof.
  intros Hr He r0 s0 Hr0. destruct (decide (r0 = r)) as [->|Hne].
  - exists s'. split; [by eapply lookup_store_eq|]. congruence.
  - exists s0. rewrite list_lookup_insert_ne by done.
    split; [done|apply SessionEvolves_refl].
Qed.

Lemma HeapEvolves_alloc h s : HeapEvolves h (h ++ [s]).
Proof.
  intros r0 s0 Hr0. exists s0. split; [|apply SessionEvolves_refl].
  rewrite lookup_app_l; [done|]. by eapply lookup_lt_Some.
Qed.

Lemma Evolves_refl w : Evolves w w.
Proof. split; try done. apply HeapEvolves_refl. Qed.

Lemma Evolves_trans w1 w2 w3 : Evolves w1 w2 -> Evolves w2 w3 -> Evolves w1 w3.
Proof.
  intros [Hl1 Hs1 Ht1 Hr1 Hy1 Hc1 Hn1 Hh1] [Hl2 Hs2 Ht2 Hr2 Hy2 Hc2 Hn2 Hh2]. split.
  - lia.
  - by etrans.
  - by etrans.
  - congruence.
  - congruence.
  - auto.
  - intros Hc. rewrite Hn2, Hn1; auto.
  - by eapply HeapEvolves_trans.
Qed.

Lemma Evolves_rawSend sid method params w :
  Evolves w (CRConnection_rawSend sid method params w).2.
Proof.
  unfold CRConnection_rawSend, log_line. simpl.
  destruct (isLogEnabled (logger w)); split; simpl; try done; try lia;
    try (by apply prefix_app_r); apply HeapEvolves_refl.
Qed.

Lemma Evolves_send r method params site w :
  Evolves w (CRSession_send r method params site w).1.
Proof.
  destruct (heap w !! r) as [s|] eqn:Hr;
    [|unfold CRSession_send; rewrite Hr; apply Evolves_refl].
  destruct (_crashed s) eqn:Hc;
    [erewrite send_fails by eauto; apply Evolves_refl|].
  destruct (_connection s) eqn:Hconn;
    [erewrite send_fails by eauto; apply Evolves_refl|].
  erewrite send_succeeds by eauto.
  eapply Evolves_trans; [apply (Evolves_rawSend (_sessionId s) method params)|].
  destruct (rawSend_frame (_sessionId s) method params w) as (Hh & _).
  remember (CRConnection_rawSend (_sessionId s) method params w).2 as w1 eqn:Hw1.
  clear Hw1. split; simpl; try done.
  eapply HeapEvolves_store; [by rewrite Hh|].
  split; simpl; try done; congruence.
Qed.

Lemma Evolves_markAsCrashed r w : Evolves w (CRSession_markAsCrashed r w).
Proof.
  unfold CRSession_markAsCrashed.
  destruct (heap w !! r) as [s|] eqn:Hr; [|apply Evolves_refl].
  split; simpl; try done. eapply HeapEvolves_store; [done|]. by split.
Qed.

Lemma Evolves_session_onMessage r object w :
  Evolves w (CRSession_onMessage r object w).1.
Proof.
  unfold CRSession_onMessage.
  destruct (heap w !! r) as [s|] eqn:Hr; [|apply Evolves_refl].
  destruct (matching_callback object s) as [[i callback]|] eqn:Hm.
  - assert (He : SessionEvolves s (set_callbacks (JSMap.delete i (_callbacks s)) s)).
    { split; simpl; try done. by intros _ ->. }
    destruct (ProtocolResponse.error object); split; simpl; try done;
      try (by apply prefix_app_r); by eapply HeapEvolves_store.
  - destruct (truthy_num (ProtocolResponse.id object)); simpl;
      [apply Evolves_refl|].
    split; simpl; try done. apply HeapEvolves_refl.
Qed.

Lemma Evolves_onClosed r w : Evolves w (CRSession_onClosed r w).
Proof.
  destruct (heap w !! r) as [s|] eqn:Hr;
    [|unfold CRSession_onClosed; rewrite Hr; apply Evolves_refl].
  rewrite (onClosed_eq _ _ _ Hr). split; simpl; try done.
  - by apply prefix_app_r.
  - eapply HeapEvolves_store; [done|]. by split.
Qed.

Lemma Evolves_lifecycle message w : Evolves w (lifecycle message w).1.
Proof.
  unfold lifecycle.
  destruct (decide (ProtocolResponse.method message = Some "Target.attachedToTarget")).
  - destruct (ProtocolResponse.params message) as [[sid ty| |]|];
      try apply Evolves_refl.
    split; simpl; try done. apply HeapEvolves_alloc.
  - destruct (decide (ProtocolResponse.method message
                      = Some "Target.detachedFromTarget")); [|apply Evolves_refl].
    destruct (ProtocolResponse.params message) as [p|]; [|apply Evolves_refl].
    destruct (params_sessionId p) as [sid|]; [|apply Evolves_refl].
    destruct (JSMap.get sid (_sessions (connection w))) as [session|];
      [|apply Evolves_refl].
    simpl. destruct (Evolves_onClosed session w). by split.
Qed.

Lemma Evolves_connection_onMessage message w :
  Evolves w (CRConnection_onMessage message w).1.
Proof.
  unfold CRConnection_onMessage, bind, modify, ret.
  assert (H1 : Evolves w (log_line (LogRecv message) w)).
  { unfold log_line. destruct (isLogEnabled (logger w)); [|apply Evolves_refl].
    split; simpl; try done. apply HeapEvolves_refl. }
  destruct (decide (ProtocolResponse.id message = Some kBrowserCloseMessageId));
    [done|].
  pose proof (Evolves_lifecycle message (log_line (LogRecv message) w)) as H2.
  destruct (lifecycle message (log_line (LogRecv message) w)) as [w2 [[]|e]];
    simpl in H2; [|by eapply Evolves_trans].
  destruct (JSMap.get _ (_sessions (connection w2))) as [session|];
    [|by eapply Evolves_trans].
  eapply Evolves_trans; [by eapply Evolves_trans|].
  apply Evolves_session_onMessage.
Qed.

Lemma Evolves_fold_onClosed l w :
  Evolves w (foldl (fun w session => CRSession_onClosed session w) w l).
Proof.
  revert w. induction l as [|r l IH]; intros w; simpl; [apply Evolves_refl|].
  eapply Evolves_trans; [apply (Evolves_onClosed r)|apply IH].
Qed.

Lemma Evolves_onClose w : Evolves w (CRConnection_onClose w).
Proof.
  unfold CRConnection_onClose.
  match goal with |- context [foldl ?f ?w0 ?l] =>
    pose proof (Evolves_fold_onClosed l w0) as [Hl Hs Ht Hr Hy Hc Hn Hh];
    remember (foldl f w0 l) as w1 eqn:Hw1; clear Hw1
  end.
  simpl in *. split; simpl; try done; try (intros _; by rewrite Hn); auto.
Qed.

Lemma Evolves_transport_closed w : Evolves w (transport_closed w).
Proof.
  unfold transport_closed.
  destruct (onclose (transport w)); [apply Evolves_onClose|apply Evolves_refl].
Qed.

Lemma Evolves_close w : Evolves w (CRConnection_close w).
Proof.
  unfold CRConnection_close, transport_close.
  destruct (_closed (connection w)) eqn:Hclosed; simpl; [apply Evolves_refl|].
  match goal with |- context [set_transport ?t w] =>
    assert (H1 : Evolves w (set_transport t w))
      by (split; simpl; try done; try congruence; apply HeapEvolves_refl)
  end.
  destruct (syncClose _); [|done].
  eapply Evolves_trans; [exact H1|apply Evolves_transport_closed].
Qed.

Lemma Evolves_detach r site w : Evolves w (CRSession_detach r site w).1.
Proof.
  unfold CRSession_detach, bind, ret.
  destruct (heap w !! r) as [s|]; [|apply Evolves_refl].
  destruct (_connection s); [apply Evolves_refl|].
  destruct (CRConnection_session (_rootSessionId s) w) as [root|];
    [|apply Evolves_refl].
  pose proof (Evolves_send root "Target.detachFromTarget"
    (Some (JObj [("sessionId", JStr (_sessionId s))])) site w) as He.
  by destruct (CRSession_send _ _ _ _ w) as [w' [p|e]].
Qed.

Lemma Evolves_step w a : Evolves w (step w a).
Proof.
  destruct a; simpl.
  - apply Evolves_send.
  - apply Evolves_markAsCrashed.
  - apply Evolves_detach.
  - apply Evolves_close.
  - unfold transport_deliver.
    destruct (onmessage (transport w)); [|apply Evolves_refl].
    apply Evolves_connection_onMessage.
  - apply Evolves_transport_closed.
Qed.

Lemma Evolves_run acts w : Evolves w (run acts w).
Proof.
  revert w. induction acts as [|a acts IH]; intros w; simpl; [apply Evolves_refl|].
  eapply Evolves_trans; [apply Evolves_step|apply IH].
Qed.

Lemma onClose_closed w : _closed (connection (CRConnection_onClose w)) = true.
Proof.
  unfold CRConnection_onClose.
  match goal with |- context [foldl ?f ?w0 ?l] =>
    pose proof (ev_closed _ _ (Evolves_fold_onClosed l w0) eq_refl) as Hc;
    remember (foldl f w0 l) as w1 eqn:Hw1; clear Hw1
  end.
  done.
Qed.

(** ** Counting settlements *)

Lemma settle_count_unsettled p w :
  p ∉ (settled w).*1 -> settle_count p w = 0%nat.
Proof.
  unfold settle_count. induction (settled w) as [|[q o] st IH]; simpl; [done|].
  rewrite not_elem_of_cons. intros [Hne Hnin].
  rewrite filter_cons, decide_False by (simpl; congruence). auto.
Qed.

Lemma settle_count_once p o w :
  NoDup (settled w).*1 -> (p, o) ∈ settled w -> settle_count p w = 1%nat.
Proof.
  unfold settle_count. induction (settled w) as [|[q o'] st IH]; simpl.
  - intros _ Hin. by apply elem_of_nil in Hin.
  - rewrite NoDup_cons, elem_of_cons. intros [Hq Hnd] [Heq|Hin].
    + injection Heq as <- <-. rewrite filter_cons, decide_True by done.
      simpl. f_equal.
      assert (H0 : settle_count p (set_settled st w) = 0%nat)
        by by apply settle_count_unsettled.
      exact H0.
    + rewrite filter_cons, decide_False; [by apply IH|].
      simpl. intros ->. apply Hq. by apply (list_elem_of_fmap_2 fst) in Hin.
Qed.

(** A settlement made in a state of a run stays the only one of its promise. *)
Lemma settled_once_for_good p o w acts :
  Inv w -> (p, o) ∈ settled w -> settle_count p (run acts w) = 1%nat.
Proof.
  intros HI Hin.
  apply settle_count_once with o.
  - apply (settled_once _ _ _ (proj1 (Inv_run acts w HI))).
  - destruct (ev_settled _ _ (Evolves_run acts w)) as [k ->].
    apply elem_of_app. by left.
Qed.

(** ** Replies *)

Lemma onMessage_matching r s object i callback w :
  heap w !! r = Some s ->
  ProtocolResponse.id object = Some i -> i <> 0 ->
  JSMap.get i (_callbacks s) = Some callback ->
  CRSession_onMessage r object w
  = (settle (cb_promise callback)
       match ProtocolResponse.error object with
       | Some e => Rejected (createProtocolError (cb_error callback)
                               (cb_method callback) e)
       | None => Resolved (default JUndefined (ProtocolResponse.result object))
       end
       (store_session r (set_callbacks (JSMap.delete i (_callbacks s)) s) w),
     Ok tt).
Proof.
  intros Hr Hid Hne Hget.
  assert (Hm : matching_callback object s = Some (i, callback))
    by by apply matching_callback_Some.
  unfold CRSession_onMessage. rewrite Hr, Hm.
  by destruct (ProtocolResponse.error object).
Qed.

(** ** Closing sessions *)

Lemma closed_session_idemp s : closed_session (closed_session s) = closed_session s.
Proof. done. Qed.

Lemma onClosed_heap_eq r s w :
  heap w !! r = Some s -> heap (CRSession_onClosed r w) !! r = Some (closed_session s).
Proof.
  intros Hr. rewrite (onClosed_eq _ _ _ Hr). simpl. by eapply lookup_store_eq.
Qed.

Lemma onClosed_heap_ne r r' w :
  r <> r' -> heap (CRSession_onClosed r' w) !! r = heap w !! r.
Proof.
  intros Hne. destruct (heap w !! r') as [s'|] eqn:Hr'.
  - rewrite (onClosed_eq _ _ _ Hr'). simpl. by apply list_lookup_insert_ne.
  - unfold CRSession_onClosed. by rewrite Hr'.
Qed.

Lemma onClosed_connection r w : connection (CRSession_onClosed r w) = connection w.
Proof.
  destruct (heap w !! r) as [s|] eqn:Hr.
  - by rewrite (onClosed_eq _ _ _ Hr).
  - unfold CRSession_onClosed. by rewrite Hr.
Qed.

Lemma onClosed_settled r s w :
  heap w !! r = Some s ->
  settled (CRSession_onClosed r w) = settled w ++ reject_all s.
Proof. intros Hr. by rewrite (onClosed_eq _ _ _ Hr). Qed.

Lemma fold_onClosed_keeps_closed l r s w :
  heap w !! r = Some (closed_session s) ->
  heap (foldl (fun w session => CRSession_onClosed session w) w l) !! r
  = Some (closed_session s).
Proof.
  revert w. induction l as [|r' l IH]; intros w Hr; simpl; [done|].
  apply IH. destruct (decide (r = r')) as [Heq|Hne].
  - subst r'. exact (onClosed_heap_eq _ _ _ Hr).
  - rewrite <- Hr. by apply onClosed_heap_ne.
Qed.

Lemma fold_onClosed_closes l r s w :
  r ∈ l -> heap w !! r = Some s ->
  let w' := foldl (fun w session => CRSession_onClosed session w) w l in
  heap w' !! r = Some (closed_session s) /\
  forall e, e ∈ reject_all s -> e ∈ settled w'.
Proof.
  revert w. induction l as [|r' l IH]; intros w Hin Hr; simpl.
  - by apply elem_of_nil in Hin.
  - destruct (decide (r = r')) as [Heq|Hne].
    + subst r'. split.
      * apply fold_onClosed_keeps_closed. by apply onClosed_heap_eq.
      * intros e He.
        destruct (ev_settled _ _
          (Evolves_fold_onClosed l (CRSession_onClosed r w))) as [k ->].
        rewrite (onClosed_settled _ _ _ Hr), !elem_of_app. auto.
    + apply elem_of_cons in Hin as [?|Hin]; [done|].
      apply IH; [done|]. by rewrite onClosed_heap_ne.
Qed.

Lemma onClose_closes r s w :
  r ∈ JSMap.values (_sessions (connection w)) -> heap w !! r = Some s ->
  heap (CRConnection_onClose w) !! r = Some (closed_session s) /\
  forall e, e ∈ reject_all s -> e ∈ settled (CRConnection_onClose w).
Proof.
  intros Hin Hr. unfold CRConnection_onClose. simpl.
  match goal with |- context [foldl ?f ?w0 ?l] =>
    apply (fold_onClosed_closes l r s w0)
  end; done.
Qed.

Lemma onMessage_keeps_closed o object r s w :
  heap w !! r = Some (closed_session s) ->
  heap (CRSession_onMessage o object w).1 !! r = Some (closed_session s).
Proof.
  intros Hr. unfold CRSession_onMessage.
  destruct (heap w !! o) as [so|] eqn:Ho; [|done].
  destruct (matching_callback object so) as [[i callback]|] eqn:Hm.
  - assert (Hne : r <> o).
    { intros Heq. subst o. apply matching_callback_Some in Hm as (_ & _ & Hget).
      assert (Hso : Some (closed_session s) = Some so)
        by exact (eq_trans (eq_sym Hr) Ho).
      injection Hso as <-. done. }
    destruct (ProtocolResponse.error object); simpl;
      by rewrite list_lookup_insert_ne.
  - by destruct (truthy_num (ProtocolResponse.id object)).
Qed.

Lemma log_line_frame l w :
  connection (log_line l w) = connection w /\ heap (log_line l w) = heap w /\
  transport (log_line l w) = transport w /\ settled (log_line l w) = settled w /\
  nextPromise (log_line l w) = nextPromise w /\
  microtasks (log_line l w) = microtasks w.
Proof. unfold log_line. by destruct (isLogEnabled (logger w)). Qed.

(** The dispatch of a detach notification: close and unregister the session
    under the target id, then hand the frame to the owner of the frame. *)
Lemma detach_dispatch message p target w :
  ProtocolResponse.method message = Some "Target.detachedFromTarget" ->
  ProtocolResponse.id message <> Some kBrowserCloseMessageId ->
  ProtocolResponse.params message = Some p ->
  params_sessionId p = Some target ->
  let w0 := log_line (LogRecv message) w in
  let w1 :=
    match JSMap.get target (_sessions (connection w0)) with
    | Some session =>
        set_connection
          (set_sessions (JSMap.delete target (_sessions (connection w0)))
             (connection w0))
          (CRSession_onClosed session w0)
    | None => w0
    end in
  CRConnection_onMessage message w
  = match JSMap.get (or_empty (ProtocolResponse.sessionId message))
            (_sessions (connection w1)) with
    | Some session => CRSession_onMessage session message w1
    | None => (w1, Ok tt)
    end.
Proof.
  intros Hmethod Hid Hparams Htarget w0 w1.
  assert (Hlife : lifecycle message w0 = (w1, Ok tt)).
  { subst w1. unfold lifecycle. rewrite Hmethod. rewrite decide_False by done.
    rewrite decide_True by done. rewrite Hparams, Htarget.
    destruct (JSMap.get target (_sessions (connection w0))) as [session|]; [|done].
    by rewrite onClosed_connection. }
  unfold CRConnection_onMessage, bind, modify, ret. simpl.
  rewrite decide_False by done. fold w0. by rewrite Hlife.
Qed.

(** What follows once a session has been swept in a state of a run. *)
Lemma swept_session r s w w' :
  Inv w -> Inv w' -> heap w !! r = Some s ->
  heap w' !! r = Some (closed_session s) ->
  (forall e, e ∈ reject_all s -> e ∈ settled w') ->
  (forall callback, callback ∈ JSMap.values (_callbacks s) ->
     settle_count (cb_promise callback) w = 0%nat /\
     (cb_promise callback,
      Rejected {| message := "Protocol error (" +:+ cb_method callback +:+
                             "): Target closed.";
                  stack := stack (cb_error callback) |}) ∈ settled w' /\
     forall acts', settle_count (cb_promise callback) (run acts' w') = 1%nat) /\
  (forall acts' method params site,
     let w'' := run acts' w' in
     exists s'', heap w'' !! r = Some s'' /\ _callbacks s'' = [] /\
       _connection s'' = ConnNull /\
       CRSession_send r method params site w''
       = (w'', Throw (send_failure s'' method site))).
Proof.
  intros HI HI' Hr Hr' Hrej. split.
  - intros callback Hcb.
    assert (Hin : (cb_promise callback, Rejected (target_closed_error callback))
                  ∈ settled w').
    { apply Hrej. unfold reject_all.
      by apply (list_elem_of_fmap_2
        (fun callback => (cb_promise callback,
                          Rejected (target_closed_error callback)))). }
    split_and!.
    + apply settle_count_unsettled.
      eapply (pending_unsettled _ _ _ (proj1 HI)); [done|].
      by apply list_elem_of_fmap_2.
    + done.
    + intros acts'. by eapply settled_once_for_good.
  - intros acts' method params site w''.
    destruct (ev_heap _ _ (Evolves_run acts' w') _ _ Hr') as (s'' & Hr'' & He).
    exists s''.
    assert (Hconn : _connection s'' = ConnNull) by by apply (se_connection _ _ He).
    split_and!; [done| |done|].
    + by apply (se_callbacks _ _ He).
    + apply send_fails; [done|by right].
Qed.

(** ** The registry *)

Lemma RegistryKept_refl w : RegistryKept w w.
Proof. done. Qed.

Lemma RegistryKept_send r method params site w :
  RegistryKept w (CRSession_send r method params site w).1.
Proof.
  destruct (heap w !! r) as [s|] eqn:Hr;
    [|by unfold CRSession_send; rewrite Hr].
  destruct (_crashed s) eqn:Hc; [by erewrite send_fails by eauto|].
  destruct (_connection s) eqn:Hconn; [by erewrite send_fails by eauto|].
  erewrite send_succeeds by eauto.
  destruct (rawSend_frame (_sessionId s) method params w)
    as (_ & _ & _ & _ & Hs & Hroot & Hcl & _).
  by split_and!.
Qed.

Lemma RegistryKept_session_onMessage r object w :
  RegistryKept w (CRSession_onMessage r object w).1.
Proof.
  unfold CRSession_onMessage.
  destruct (heap w !! r) as [s|]; [|done].
  destruct (matching_callback object s) as [[i callback]|].
  - by destruct (ProtocolResponse.error object).
  - by destruct (truthy_num (ProtocolResponse.id object)).
Qed.

Lemma RootInv_kept w w' : RegistryKept w w' -> RootInv w -> RootInv w'.
Proof.
  unfold RootInv, CRConnection_session. intros (-> & -> & ->). done.
Qed.

Lemma RootInv_onClose w : RootInv (CRConnection_onClose w).
Proof. intros Hc. by rewrite onClose_closed in Hc. Qed.

Lemma RootInv_lifecycle message w :
  names_root message = false -> RootInv w -> RootInv (lifecycle message w).1.
Proof.
  unfold names_root, lifecycle, RootInv, CRConnection_session.
  intros Hn HR.
  destruct (decide (ProtocolResponse.method message = Some "Target.attachedToTarget"))
    as [Ha|Ha].
  - rewrite (bool_decide_eq_true_2 _ Ha) in Hn. simpl in Hn.
    destruct (ProtocolResponse.params message) as [[sid ty| |]|]; try done.
    simpl in *. apply bool_decide_eq_false in Hn.
    intros Hc. rewrite JSMapFacts.get_set_ne; [auto|congruence].
  - destruct (decide (ProtocolResponse.method message
                      = Some "Target.detachedFromTarget")) as [Hd|Hd]; [|done].
    rewrite (bool_decide_eq_true_2 _ Hd), orb_true_r in Hn. simpl in Hn.
    destruct (ProtocolResponse.params message) as [p|]; [|done].
    apply bool_decide_eq_false in Hn.
    destruct (params_sessionId p) as [sid|]; [|done].
    destruct (JSMap.get sid (_sessions (connection w))) as [session|]; [|done].
    simpl. rewrite onClosed_connection. intros Hc.
    rewrite JSMapFacts.get_delete_ne; [auto|congruence].
Qed.

Lemma RootInv_connection_onMessage message w :
  names_root message = false -> RootInv w ->
  RootInv (CRConnection_onMessage message w).1.
Proof.
  intros Hn HR. unfold CRConnection_onMessage, bind, modify, ret.
  assert (HR1 : RootInv (log_line (LogRecv message) w)).
  { eapply RootInv_kept; [|exact HR]. unfold log_line.
    by destruct (isLogEnabled (logger w)). }
  destruct (decide (ProtocolResponse.id message = Some kBrowserCloseMessageId));
    [done|].
  pose proof (RootInv_lifecycle message _ Hn HR1) as HR2.
  destruct (lifecycle message (log_line (LogRecv message) w)) as [w2 [[]|e]];
    simpl in HR2; [|done].
  destruct (JSMap.get _ (_sessions (connection w2))) as [session|]; [|done].
  eapply RootInv_kept; [apply RegistryKept_session_onMessage|done].
Qed.

Lemma RootInv_step w a : respects_root a = true -> RootInv w -> RootInv (step w a).
Proof.
  intros Ha HR. destruct a; simpl in *.
  - eapply RootInv_kept; [apply RegistryKept_send|done].
  - eapply RootInv_kept; [|exact HR]. unfold CRSession_markAsCrashed.
    by destruct (heap w !! r).
  - unfold CRSession_detach, bind, ret.
    destruct (heap w !! r) as [s|]; [|done].
    destruct (_connection s); [done|].
    destruct (CRConnection_session (_rootSessionId s) w) as [root|]; [|done].
    pose proof (RegistryKept_send root "Target.detachFromTarget"
      (Some (JObj [("sessionId", JStr (_sessionId s))])) site w) as Hk.
    destruct (CRSession_send _ _ _ _ w) as [w' [p|e]];
      by eapply RootInv_kept.
  - unfold CRConnection_close, transport_close, transport_closed.
    destruct (negb (_closed (connection w))); [|done]. simpl.
    destruct (syncClose (transport w)); [|done].
    destruct (onclose (transport w)); [apply RootInv_onClose|done].
  - unfold transport_deliver. destruct (onmessage (transport w)); [|done].
    apply RootInv_connection_onMessage; [|done]. by apply negb_true_iff.
  - unfold transport_closed.
    destruct (onclose (transport w)); [apply RootInv_onClose|done].
Qed.

Lemma RootInv_run acts w :
  forallb respects_root acts = true -> RootInv w -> RootInv (run acts w).
Proof.
  revert w. induction acts as [|a acts IH]; intros w Hall HR; simpl in *; [done|].
  apply andb_true_iff in Hall as [Ha Hall]. apply IH; [done|].
  by apply RootInv_step.
Qed.

(** * The claims *)

(** ** Request ids *)


(** C10. Every id allocated by [_rawSend] is at least 1, so no pending call
    is keyed by 0; and [CRSession._onMessage] treats a frame bearing id 0
    exactly as the same frame without an id: it takes the event branch,
    whose assertion accepts it. *)
Theorem id_zero_is_never_issued_and_reads_as_no_id
    (sync logEnabled : bool) (acts : list Action)
    (sid method : string) (params : option JSValue)
    (r : ref) (object : ProtocolResponse.t) :
  let w := run acts (new_CRConnection sync logEnabled) in
  1 <= (CRConnection_rawSend sid method params w).1 /\
  Forall (fun s => JSMap.has 0 (_callbacks s) = false) (heap w) /\
  CRSession_onMessage r (ProtocolResponse.with_id (Some 0) object) w
  = CRSession_onMessage r (ProtocolResponse.with_id None object) w /\
  CRSession_onMessage r (ProtocolResponse.with_id (Some 0) object) w
  = match heap w !! r with
    | Some _ =>
        (defer (EmitOnSession r (EvMethod (ProtocolResponse.method object))
                  (ProtocolResponse.params object)) w, Ok tt)
    | None => (w, Throw NoSuchObject)
    end.
Proof.
  intros w.
  assert (HI : Inv w) by apply Inv_run, Inv_initial.
  destruct HI as [_ [Hn _ _ Hk]].
  split_and!.
  - rewrite rawSend_fst. lia.
  - apply Forall_lookup. intros i s Hs.
    apply JSMapFacts.has_false, JSMapFacts.get_None_key.
    intros Hin. eapply Hk in Hin; [|done]. lia.
  - unfold CRSession_onMessage. by destruct (heap w !! r).
  - unfold CRSession_onMessage. by destruct (heap w !! r).
Qed.

(** ** Inbound frames *)

(** C7. A frame whose id is the reserved sentinel -9999 is discarded
    whatever its other fields are: apart from the optional log line, the
    connection, its registry, every session, the transport, the settled
    calls and the scheduled notifications are what they were. *)
Theorem browser_close_reply_is_discarded
    (message : ProtocolResponse.t) (w : World) :
  ProtocolResponse.id message = Some kBrowserCloseMessageId ->
  CRConnection_onMessage message w = (log_line (LogRecv message) w, Ok tt) /\
  let w' := (CRConnection_onMessage message w).1 in
  connection w' = connection w /\ heap w' = heap w /\
  transport w' = transport w /\ settled w' = settled w /\
  nextPromise w' = nextPromise w /\ microtasks w' = microtasks w.
Proof.
  intros Hid.
  assert (Heq : CRConnection_onMessage message w
                = (log_line (LogRecv message) w, Ok tt)).
  { unfold CRConnection_onMessage, bind, modify, ret. by rewrite decide_True. }
  split; [done|]. rewrite Heq. unfold log_line; simpl.
  by destruct (isLogEnabled (logger w)).
Qed.

(** C5, as the code has it. An envelope carrying a non-zero id that
    matches no pending call of the session fails with an assertion failure
    and changes nothing; the event branch is taken only by envelopes with no
    id or with id 0. *)
Theorem unmatched_nonzero_id_fails_assertion
    (w : World) (r : ref) (s : CRSession) (object : ProtocolResponse.t) :
  heap w !! r = Some s ->
  (forall i, ProtocolResponse.id object = Some i -> i <> 0 ->
     JSMap.get i (_callbacks s) = None ->
     CRSession_onMessage r object w = (w, Throw AssertionFailed)) /\
  (microtasks (CRSession_onMessage r object w).1 <> microtasks w ->
     ProtocolResponse.id object = None \/ ProtocolResponse.id object = Some 0).
Proof.
  intros Hr. split.
  - intros i Hid Hne Hget.
    assert (Hm : matching_callback object s = None).
    { apply matching_callback_None. right. eauto. }
    unfold CRSession_onMessage. rewrite Hr, Hm, Hid. unfold truthy_num.
    by destruct (Z.eqb_spec i 0).
  - unfold CRSession_onMessage. rewrite Hr.
    destruct (matching_callback object s) as [[i callback]|].
    + by destruct (ProtocolResponse.error object).
    + unfold truthy_num.
      destruct (ProtocolResponse.id object) as [i|]; [|auto].
      destruct (Z.eqb_spec i 0) as [->|Hne]; simpl; [auto|done].
Qed.

(** ** Closing the connection *)


(** ** Sending and replies *)


(** C4. [send] fails at once, before any id is allocated or anything is
    handed to the transport, when the session is crashed ("Target crashed")
    or has no connection (a session-closed error naming the target type);
    otherwise it takes the next id of the connection, puts the request on
    the wire, registers the pending call under that id and returns a promise
    that is unsettled until [_onMessage] receives the reply with that id. *)
Theorem send_fails_fast_or_registers
    (sync logEnabled : bool) (acts : list Action) (r : ref) (s : CRSession)
    (method : string) (params : option JSValue) (site : CallSite) :
  let w := run acts (new_CRConnection sync logEnabled) in
  heap w !! r = Some s ->
  (_crashed s = true ->
     CRSession_send r method params site w
     = (w, Throw (ErrorExn (new_Error "Target crashed" site)))) /\
  (_crashed s = false -> _connection s = ConnNull ->
     CRSession_send r method params site w
     = (w, Throw (ErrorExn (new_Error
          ("Protocol error (" +:+ method +:+
           "): Session closed. Most likely the " +:+ _targetType s +:+
           " has been closed.") site)))) /\
  (_crashed s = false -> _connection s = ConnThis ->
     let id := (CRConnection_rawSend (_sessionId s) method params w).1 in
     let p := nextPromise w in
     let callback := {| cb_promise := p; cb_error := new_Error "" site;
                        cb_method := method |} in
     let w' := (CRSession_send r method params site w).1 in
     (CRSession_send r method params site w).2 = Ok p /\
     sent_ids w' = sent_ids w ++ [id] /\
     heap w' !! r = Some (set_callbacks (JSMap.set id callback (_callbacks s)) s) /\
     settle_count p w' = 0%nat /\
     forall reply, ProtocolResponse.id reply = Some id ->
       ProtocolResponse.error reply = None ->
       settled (CRSession_onMessage r reply w').1
       = settled w' ++
         [(p, Resolved (default JUndefined (ProtocolResponse.result reply)))]) /\
  CRSession_send r method params site (CRSession_markAsCrashed r w)
  = (CRSession_markAsCrashed r w,
     Throw (ErrorExn (new_Error "Target crashed" site))).
Proof.
  intros w Hr.
  assert (HI : Inv w) by apply Inv_run, Inv_initial.
  split_and!.
  - intros Hc. erewrite send_fails by eauto. unfold send_failure. by rewrite Hc.
  - intros Hc Hconn. erewrite send_fails by eauto. unfold send_failure.
    by rewrite Hc.
  - intros Hc Hconn id p callback w'.
    pose proof (Inv_send r method params site w HI) as HI'.
    subst w'. rewrite (send_succeeds _ _ _ _ _ _ Hr Hc Hconn) in *.
    subst id. rewrite !rawSend_fst.
    pose proof (rawSend_sent_ids (_sessionId s) method params w) as Hids.
    destruct (rawSend_frame (_sessionId s) method params w) as (Hh & Hs & Hn & _).
    remember (CRConnection_rawSend (_sessionId s) method params w).2 as w1 eqn:Hw1.
    clear Hw1. simpl in *.
    assert (Hr' : <[r := set_callbacks
                     (JSMap.set (_lastId (connection w) + 1) callback (_callbacks s)) s]>
                    (heap w1) !! r
                  = Some (set_callbacks
                     (JSMap.set (_lastId (connection w) + 1) callback (_callbacks s)) s)).
    { eapply lookup_store_eq. by rewrite Hh. }
    split_and!.
    + done.
    + done.
    + done.
    + apply settle_count_unsettled.
      eapply (pending_unsettled _ _ _ (proj1 HI')); [exact Hr'|].
      unfold session_promises; simpl. apply list_elem_of_fmap.
      exists callback. split; [done|].
      eapply JSMapFacts.get_Some_value, JSMapFacts.get_set_eq.
    + intros reply Hid Herr.
      erewrite onMessage_matching; [|exact Hr'|exact Hid| |apply JSMapFacts.get_set_eq].
      * by rewrite Herr.
      * pose proof (lastId_nonneg _ _ _ (proj2 HI)). lia.
  - unfold CRSession_markAsCrashed. rewrite Hr.
    rewrite (send_fails r (set_crashed true s)); [done| |by left].
    simpl. by eapply lookup_store_eq.
Qed.

(** ** Closing sessions *)

(** C2. On any close of a session, by [CRSession._onClosed] itself, by
    the transport-close handler of the connection for a registered session
    or by a detach notification naming it, every call that was pending is
    rejected exactly once with
    "Protocol error (<method>): Target closed." and the stack of its call
    site, no call is left in [_callbacks], the connection reference is
    null, and every later [send] on the session throws at once and changes
    nothing. *)
Theorem close_rejects_every_pending_call
    (sync logEnabled : bool) (acts : list Action) (r : ref) (s : CRSession)
    (w' : World) :
  let w := run acts (new_CRConnection sync logEnabled) in
  heap w !! r = Some s ->
  w' = CRSession_onClosed r w \/
  (r ∈ JSMap.values (_sessions (connection w)) /\ w' = CRConnection_onClose w) \/
  (exists message p target,
     ProtocolResponse.method message = Some "Target.detachedFromTarget" /\
     ProtocolResponse.id message <> Some kBrowserCloseMessageId /\
     ProtocolResponse.params message = Some p /\
     params_sessionId p = Some target /\
     CRConnection_session target w = Some r /\
     w' = (CRConnection_onMessage message w).1) ->
  (forall callback, callback ∈ JSMap.values (_callbacks s) ->
     settle_count (cb_promise callback) w = 0%nat /\
     (cb_promise callback,
      Rejected {| message := "Protocol error (" +:+ cb_method callback +:+
                             "): Target closed.";
                  stack := stack (cb_error callback) |}) ∈ settled w' /\
     forall acts', settle_count (cb_promise callback) (run acts' w') = 1%nat) /\
  (exists s', heap w' !! r = Some s' /\ _callbacks s' = [] /\
              _connection s' = ConnNull) /\
  (forall acts' method params site,
     let w'' := run acts' w' in
     exists s'', heap w'' !! r = Some s'' /\ _callbacks s'' = [] /\
       _connection s'' = ConnNull /\
       CRSession_send r method params site w''
       = (w'', Throw (send_failure s'' method site))).
Proof.
  intros w Hr Hw'.
  assert (HI : Inv w) by apply Inv_run, Inv_initial.
  assert (Hswept : Inv w' /\ heap w' !! r = Some (closed_session s) /\
                   forall e, e ∈ reject_all s -> e ∈ settled w').
  { destruct Hw' as [->|[[Hreg ->]|Hdetach]].
    - split_and!.
      + by apply Inv_onClosed.
      + by apply onClosed_heap_eq.
      + intros e He. rewrite (onClosed_settled _ _ _ Hr), elem_of_app. auto.
    - split; [by apply Inv_onClose|]. by apply onClose_closes.
    - destruct Hdetach as (message & p & target & Hm & Hid & Hp & Ht & Hreg & ->).
      split; [by apply Inv_connection_onMessage|].
      rewrite (detach_dispatch message p target w Hm Hid Hp Ht). cbv zeta.
      destruct (log_line_frame (LogRecv message) w) as (Hconn & Hheap & _ & Hst & _).
      unfold CRConnection_session in Hreg. rewrite <- Hconn in Hreg. rewrite Hreg.
      rewrite <- Hheap in Hr.
      match goal with |- context [CRSession_onMessage _ message ?w1] =>
        assert (Hr1 : heap w1 !! r = Some (closed_session s))
          by (by apply onClosed_heap_eq);
        assert (Hs1 : forall e, e ∈ reject_all s -> e ∈ settled w1)
          by (intros e He; simpl;
              rewrite (onClosed_settled _ _ _ Hr), elem_of_app; auto);
        remember w1 as w2 eqn:Hw2; clear Hw2
      end.
      destruct (JSMap.get _ (_sessions (connection w2))) as [o|]; [|done].
      split; [by apply onMessage_keeps_closed|].
      intros e He.
      destruct (ev_settled _ _ (Evolves_session_onMessage o message w2)) as [k ->].
      apply elem_of_app. left. auto. }
  destruct Hswept as (HI' & Hr' & Hrej).
  destruct (swept_session r s w w' HI HI' Hr Hr' Hrej) as [Hcalls Hsend].
  split_and!; [done| |done].
  exists (closed_session s). done.
Qed.


(** ** The root session *)

(** C9, as the code has it. The root session, created and registered under
    "" by the constructor, is still what a lookup of "" yields after any run
    that leaves the connection open, provided no attach or detach
    notification of the run names the empty session id as its target. *)
Theorem root_session_stays_registered
    (sync logEnabled : bool) (acts : list Action) :
  forallb respects_root acts = true ->
  let w := run acts (new_CRConnection sync logEnabled) in
  _closed (connection w) = false ->
  CRConnection_session "" w = Some (rootSession (connection w)) /\
  rootSession (connection w) = 0%nat /\
  exists s, heap w !! 0%nat = Some s /\ _sessionId s = "" /\
            _targetType s = "browser".
Proof.
  intros Hall w Hc. split_and!.
  - by apply (RootInv_run acts (new_CRConnection sync logEnabled)).
  - apply (ev_rootSession _ _ (Evolves_run acts (new_CRConnection sync logEnabled))).
  - destruct (ev_heap _ _ (Evolves_run acts (new_CRConnection sync logEnabled))
                0%nat (new_CRSession "" "browser" "") eq_refl) as (s & Hs & He).
    exists s. split_and!; [done|apply (se_sessionId _ _ He)|apply (se_targetType _ _ He)].
Qed.

(** * The claims on sample runs *)

Lemma close_rejects_every_pending_call_witness :
  heap (run Samples.two_pending Samples.fresh) !! 1%nat = Some Samples.S_busy /\
  1%nat ∈ JSMap.values
            (_sessions (connection (run Samples.two_pending Samples.fresh))) /\
  (0%nat,
   Rejected {| message := "Protocol error (Foo.bar): Target closed.";
               stack := "app.ts:10" |})
    ∈ settled (CRConnection_onClose (run Samples.two_pending Samples.fresh)) /\
  settle_count 1%nat
    (run [AFrame (Samples.attached "S")]
       (CRConnection_onClose (run Samples.two_pending Samples.fresh))) = 1%nat.
Proof.
  assert (Hs : heap (run Samples.two_pending Samples.fresh) !! 1%nat
               = Some Samples.S_busy) by reflexivity.
  assert (Hreg : 1%nat ∈ JSMap.values
            (_sessions (connection (run Samples.two_pending Samples.fresh))))
    by (right; left).
  destruct (close_rejects_every_pending_call false false Samples.two_pending
              1%nat Samples.S_busy
              (CRConnection_onClose (run Samples.two_pending Samples.fresh))
              Hs (or_intror (or_introl (conj Hreg eq_refl)))) as (Hcalls & _ & _).
  split_and!; [exact Hs|exact Hreg| |].
  - exact (proj1 (proj2 (Hcalls (Samples.call 0%nat "Foo.bar" "app.ts:10")
                           ltac:(left)))).
  - exact (proj2 (proj2 (Hcalls (Samples.call 1%nat "Foo.baz" "app.ts:11")
                           ltac:(right; left)))
             [AFrame (Samples.attached "S")]).
Defined.


Lemma send_fails_fast_or_registers_witness :
  heap (run [AFrame (Samples.attached "S")] Samples.fresh) !! 1%nat
  = Some (new_CRSession "" "page" "S") /\
  (CRSession_send 1%nat "Foo.bar" None "app.ts:10"
     (run [AFrame (Samples.attached "S")] Samples.fresh)).2 = Ok 0%nat /\
  CRSession_send 1%nat "Foo.bar" None "app.ts:10"
    (CRSession_markAsCrashed 1%nat
       (run [AFrame (Samples.attached "S")] Samples.fresh))
  = (CRSession_markAsCrashed 1%nat
       (run [AFrame (Samples.attached "S")] Samples.fresh),
     Throw (ErrorExn (new_Error "Target crashed" "app.ts:10"))).
Proof.
  assert (Hs : heap (run [AFrame (Samples.attached "S")] Samples.fresh) !! 1%nat
               = Some (new_CRSession "" "page" "S")) by reflexivity.
  destruct (send_fails_fast_or_registers false false
              [AFrame (Samples.attached "S")] 1%nat (new_CRSession "" "page" "S")
              "Foo.bar" None "app.ts:10" Hs) as (_ & _ & Hok & Hcrashed).
  split_and!; [exact Hs| |exact Hcrashed].
  exact (proj1 (Hok eq_refl eq_refl)).
Defined.

Lemma unmatched_nonzero_id_fails_assertion_witness :
  heap Samples.fresh !! 0%nat = Some (new_CRSession "" "browser" "") /\
  CRSession_onMessage 0%nat (Samples.frame (Some 5) None None None) Samples.fresh
  = (Samples.fresh, Throw AssertionFailed).
Proof.
  split; [reflexivity|].
  refine (proj1 (unmatched_nonzero_id_fails_assertion Samples.fresh 0%nat
                   (new_CRSession "" "browser" "")
                   (Samples.frame (Some 5) None None None) eq_refl)
            5 eq_refl _ eq_refl).
  discriminate.
Defined.

(** C5, as stated, fails: an envelope with id 0 matches no pending call of
    the root session of a new connection, yet it is not rejected by the
    assertion; it is emitted as the event "Foo.baz". *)
Lemma id_zero_unmatched_is_emitted :
  ProtocolResponse.id Samples.zero_id = Some 0 /\
  heap Samples.fresh !! 0%nat = Some (new_CRSession "" "browser" "") /\
  JSMap.has 0 (_callbacks (new_CRSession "" "browser" "")) = false /\
  CRSession_onMessage 0%nat Samples.zero_id Samples.fresh
  = (defer (EmitOnSession 0%nat (EvMethod (Some "Foo.baz"))
              (Some (OtherPayload (JObj [("x", JNum 1)])))) Samples.fresh,
     Ok tt) /\
  (CRSession_onMessage 0%nat Samples.zero_id Samples.fresh).2
  <> Throw AssertionFailed.
Proof. split_and!; try reflexivity. discriminate. Qed.


Lemma browser_close_reply_is_discarded_witness :
  ProtocolResponse.id Samples.browser_close_ack = Some kBrowserCloseMessageId /\
  CRConnection_onMessage Samples.browser_close_ack
    (run Samples.two_pending Samples.fresh)
  = (run Samples.two_pending Samples.fresh, Ok tt).
Proof.
  split; [reflexivity|].
  rewrite (proj1 (browser_close_reply_is_discarded Samples.browser_close_ack
                    (run Samples.two_pending Samples.fresh) eq_refl)).
  vm_compute. reflexivity.
Defined.



(** C9, as stated, fails: after a detach notification naming the empty
    session id the connection is open and no session is registered
    under "". *)
Lemma detach_of_empty_id_unregisters_root :
  _closed (connection (run [AFrame (Samples.detached "")] Samples.fresh)) = false /\
  CRConnection_session "" (run [AFrame (Samples.detached "")] Samples.fresh) = None.
Proof. split; reflexivity. Qed.

Lemma root_session_stays_registered_witness :
  forallb respects_root (Samples.two_pending ++ [AFrame (Samples.detached "S")])
  = true /\
  CRConnection_session ""
    (run (Samples.two_pending ++ [AFrame (Samples.detached "S")]) Samples.fresh)
  = Some 0%nat.
Proof.
  split; [reflexivity|].
  destruct (root_session_stays_registered false false
              (Samples.two_pending ++ [AFrame (Samples.detached "S")])
              eq_refl eq_refl) as (Hroot & Hzero & _).
  unfold Samples.fresh. rewrite Hroot. exact (f_equal Some Hzero).
Defined.

(** * Further properties *)

(** ** Pending calls against the wire *)

Section CallInv.
Implicit Types (h : list CRSession) (wire : list ProtocolRequest.t).

Lemma CallInv_initial s : _callbacks s = [] -> CallInv [s] [].
Proof.
  intros Hs. split.
  - intros [|r] s' Hr; simpl in Hr; [|done]. by injection Hr as <-.
  - intros [|r] s' i cb Hr; simpl in Hr; [|done].
    injection Hr as <-. by rewrite Hs.
  - intros [|r1] [|r2] s1 s2 i H1 H2; simpl in *; done.
Qed.

Lemma CallInv_wire h wire request : CallInv h wire -> CallInv h (wire ++ [request]).
Proof.
  intros [Hd Hw Hk]. split; [done| |done].
  intros r s i cb Hr Hget. destruct (Hw _ _ _ _ Hr Hget) as (req & Hin & Hreq).
  exists req. split; [|done]. apply elem_of_app. by left.
Qed.

(** A session is rewritten and gains no pending call. *)
Lemma CallInv_store h wire r s s' :
  CallInv h wire -> h !! r = Some s ->
  _sessionId s' = _sessionId s ->
  (forall i cb, JSMap.get i (_callbacks s') = Some cb ->
     JSMap.get i (_callbacks s) = Some cb) ->
  (forall i, i ∈ JSMap.keys (_callbacks s') -> i ∈ JSMap.keys (_callbacks s)) ->
  (_connection s' = ConnNull -> _callbacks s' = []) ->
  CallInv (<[r := s']> h) wire.
Proof.
  intros [Hd Hw Hk] Hr Hid Hget Hkeys Hdead. split.
  - intros r' x Hx. eapply lookup_store in Hx as [[-> ->]|[Hne Hx]]; eauto.
  - intros r' x i cb Hx Hi.
    eapply lookup_store in Hx as [[-> ->]|[Hne Hx]]; [| |done].
    + rewrite Hid. eauto.
    + eauto.
  - intros r1 r2 s1 s2 i H1 H2 Hi1 Hi2.
    eapply lookup_store in H1 as [[-> ->]|[Hne1 H1]]; [| |done];
      (eapply lookup_store in H2 as [[-> ->]|[Hne2 H2]]; [| |done]); eauto.
Qed.

(** A session with a connection registers a call under a fresh id, for a
    request that is put on the wire. *)
Lemma CallInv_register h wire r s id callback request :
  CallInv h wire -> h !! r = Some s -> _connection s = ConnThis ->
  (forall r' s' i, h !! r' = Some s' -> i ∈ JSMap.keys (_callbacks s') -> i <> id) ->
  ProtocolRequest.id request = id ->
  ProtocolRequest.method request = cb_method callback ->
  ProtocolRequest.sessionId request = wire_tag (_sessionId s) ->
  CallInv (<[r := set_callbacks (JSMap.set id callback (_callbacks s)) s]> h)
    (wire ++ [request]).
Proof.
  intros [Hd Hw Hk] Hr Hconn Hfresh Hid Hm Htag. split.
  - intros r' x Hx. eapply lookup_store in Hx as [[-> ->]|[Hne Hx]]; [| |done].
    + simpl. by rewrite Hconn.
    + eauto.
  - intros r' x i cb Hx Hi.
    eapply lookup_store in Hx as [[-> ->]|[Hne Hx]]; [| |done].
    + simpl in *. destruct (decide (id = i)) as [->|Hne].
      * rewrite JSMapFacts.get_set_eq in Hi. injection Hi as <-.
        exists request. split; [|done]. apply elem_of_app. right.
        by apply list_elem_of_singleton.
      * rewrite JSMapFacts.get_set_ne in Hi by done.
        destruct (Hw _ _ _ _ Hr Hi) as (req & Hin & Hreq).
        exists req. split; [|done]. apply elem_of_app. by left.
    + destruct (Hw _ _ _ _ Hx Hi) as (req & Hin & Hreq).
      exists req. split; [|done]. apply elem_of_app. by left.
  - intros r1 r2 s1 s2 i H1 H2 Hi1 Hi2.
    eapply lookup_store in H1 as [[-> ->]|[Hne1 H1]]; [| |done];
      (eapply lookup_store in H2 as [[-> ->]|[Hne2 H2]]; [| |done]); [done| | |eauto].
    + simpl in Hi1. apply JSMapFacts.keys_set in Hi1 as [->|Hi1]; [|eauto].
      by destruct (Hfresh _ _ _ H2 Hi2).
    + simpl in Hi2. apply JSMapFacts.keys_set in Hi2 as [->|Hi2]; [|eauto].
      by destruct (Hfresh _ _ _ H1 Hi1).
Qed.

Lemma CallInv_alloc h wire s :
  CallInv h wire -> _callbacks s = [] -> CallInv (h ++ [s]) wire.
Proof.
  intros [Hd Hw Hk] Hs. split.
  - intros r x Hx. apply lookup_alloc in Hx as [[-> ->]|[_ Hx]]; eauto.
  - intros r x i cb Hx. apply lookup_alloc in Hx as [[-> ->]|[_ Hx]]; [|eauto].
    by rewrite Hs.
  - intros r1 r2 s1 s2 i H1 H2.
    apply lookup_alloc in H1 as [[-> ->]|[_ H1]];
      apply lookup_alloc in H2 as [[-> ->]|[_ H2]]; try done.
    + rewrite Hs. intros Hi. by apply elem_of_nil in Hi.
    + rewrite Hs. intros _ Hi. by apply elem_of_nil in Hi.
    + eauto.
Qed.
End CallInv.

Lemma rawSend_sent sid method params w :
  sent (transport (CRConnection_rawSend sid method params w).2)
  = sent (transport w) ++
    [{| ProtocolRequest.id := _lastId (connection w) + 1;
        ProtocolRequest.method := method;
        ProtocolRequest.params := params;
        ProtocolRequest.sessionId := wire_tag sid |}].
Proof.
  unfold CRConnection_rawSend, log_line; simpl.
  by destruct (isLogEnabled (logger w)).
Qed.

Lemma CallInvW_frame w w' :
  heap w' = heap w -> sent (transport w') = sent (transport w) ->
  CallInvW w -> CallInvW w'.
Proof. unfold CallInvW. by intros -> ->. Qed.

Lemma CallInvW_send r method params site w :
  Inv w -> CallInvW w -> CallInvW (CRSession_send r method params site w).1.
Proof.
  intros HI HC. destruct (heap w !! r) as [s|] eqn:Hr;
    [|by unfold CRSession_send; rewrite Hr].
  destruct (_crashed s) eqn:Hc; [by erewrite send_fails by eauto|].
  destruct (_connection s) eqn:Hconn; [by erewrite send_fails by eauto|].
  erewrite send_succeeds by eauto.
  pose proof (rawSend_sent (_sessionId s) method params w) as Hsent.
  destruct (rawSend_frame (_sessionId s) method params w) as (Hh & _).
  remember (CRConnection_rawSend (_sessionId s) method params w).2 as w1 eqn:Hw1.
  clear Hw1. unfold CallInvW. simpl. rewrite Hh, Hsent.
  apply CallInv_register; try done.
  intros r' s' i Hr' Hi ->.
  pose proof (keys_issued _ _ _ (proj2 HI) _ _ _ Hr' Hi). lia.
Qed.

Lemma CallInvW_markAsCrashed r w : CallInvW w -> CallInvW (CRSession_markAsCrashed r w).
Proof.
  intros HC. unfold CRSession_markAsCrashed.
  destruct (heap w !! r) as [s|] eqn:Hr; [|done].
  unfold CallInvW. simpl. eapply CallInv_store; eauto.
  simpl. intros Hn. by eapply (dead_empty _ _ HC).
Qed.

Lemma CallInvW_session_onMessage r object w :
  CallInvW w -> CallInvW (CRSession_onMessage r object w).1.
Proof.
  intros HC. unfold CRSession_onMessage.
  destruct (heap w !! r) as [s|] eqn:Hr; [|done].
  destruct (matching_callback object s) as [[i callback]|] eqn:Hm.
  - assert (Hgoal : CallInv
      (<[r := set_callbacks (JSMap.delete i (_callbacks s)) s]> (heap w))
      (sent (transport w))).
    { eapply CallInv_store; eauto; simpl.
      - intros j cb Hj. destruct (decide (i = j)) as [->|Hne].
        + by rewrite JSMapFacts.get_delete_eq in Hj.
        + by rewrite JSMapFacts.get_delete_ne in Hj.
      - intros j. apply JSMapFacts.keys_delete.
      - intros Hn. by rewrite (dead_empty _ _ HC _ _ Hr Hn). }
    by destruct (ProtocolResponse.error object).
  - by destruct (truthy_num (ProtocolResponse.id object)).
Qed.

Lemma CallInvW_onClosed r w : CallInvW w -> CallInvW (CRSession_onClosed r w).
Proof.
  intros HC. destruct (heap w !! r) as [s|] eqn:Hr;
    [|by unfold CRSession_onClosed; rewrite Hr].
  rewrite (onClosed_eq _ _ _ Hr). unfold CallInvW. simpl.
  eapply CallInv_store; eauto; simpl; try done.
  intros i Hi. by apply elem_of_nil in Hi.
Qed.

Lemma CallInvW_lifecycle message w : CallInvW w -> CallInvW (lifecycle message w).1.
Proof.
  intros HC. unfold lifecycle.
  destruct (decide (ProtocolResponse.method message = Some "Target.attachedToTarget")).
  - destruct (ProtocolResponse.params message) as [[sid ty| |]|]; try done.
    unfold CallInvW. simpl. by apply CallInv_alloc.
  - destruct (decide (ProtocolResponse.method message
                      = Some "Target.detachedFromTarget")); [|done].
    destruct (ProtocolResponse.params message) as [p|]; [|done].
    destruct (params_sessionId p) as [sid|]; [|done].
    destruct (JSMap.get sid (_sessions (connection w))) as [session|]; [|done].
    simpl. eapply CallInvW_frame; [..|by apply (CallInvW_onClosed session)]; done.
Qed.

Lemma CallInvW_connection_onMessage message w :
  CallInvW w -> CallInvW (CRConnection_onMessage message w).1.
Proof.
  intros HC. unfold CRConnection_onMessage, bind, modify, ret.
  destruct (log_line_frame (LogRecv message) w) as (_ & Hh & Ht & _).
  assert (HC1 : CallInvW (log_line (LogRecv message) w))
    by (eapply CallInvW_frame; [..|exact HC]; by rewrite ?Hh, ?Ht).
  destruct (decide (ProtocolResponse.id message = Some kBrowserCloseMessageId));
    [done|].
  pose proof (CallInvW_lifecycle message _ HC1) as HC2.
  destruct (lifecycle message (log_line (LogRecv message) w)) as [w2 [[]|e]];
    simpl in HC2; [|done].
  destruct (JSMap.get _ (_sessions (connection w2))) as [session|]; [|done].
  by apply CallInvW_session_onMessage.
Qed.

Lemma CallInvW_fold_onClosed l w :
  CallInvW w -> CallInvW (foldl (fun w session => CRSession_onClosed session w) w l).
Proof.
  revert w. induction l as [|r l IH]; intros w HC; simpl; [done|].
  apply IH. by apply CallInvW_onClosed.
Qed.

Lemma CallInvW_onClose w : CallInvW w -> CallInvW (CRConnection_onClose w).
Proof.
  intros HC. unfold CRConnection_onClose.
  eapply CallInvW_frame;
    [..|eapply CallInvW_fold_onClosed; eapply CallInvW_frame; [..|exact HC]];
    done.
Qed.

Lemma CallInvW_transport_closed w : CallInvW w -> CallInvW (transport_closed w).
Proof.
  intros HC. unfold transport_closed.
  destruct (onclose (transport w)); [by apply CallInvW_onClose|done].
Qed.

Lemma CallInvW_close w : CallInvW w -> CallInvW (CRConnection_close w).
Proof.
  intros HC. unfold CRConnection_close, transport_close.
  destruct (negb (_closed (connection w))); [|done].
  match goal with |- context [set_transport ?t w] =>
    assert (CallInvW (set_transport t w))
      by (eapply CallInvW_frame; [..|exact HC]; done)
  end.
  destruct (syncClose _); [by apply CallInvW_transport_closed|done].
Qed.

Lemma CallInvW_detach r site w :
  Inv w -> CallInvW w -> CallInvW (CRSession_detach r site w).1.
Proof.
  intros HI HC. unfold CRSession_detach, bind, ret.
  destruct (heap w !! r) as [s|]; [|done].
  destruct (_connection s); [done|].
  destruct (CRConnection_session (_rootSessionId s) w) as [root|]; [|done].
  pose proof (CallInvW_send root "Target.detachFromTarget"
    (Some (JObj [("sessionId", JStr (_sessionId s))])) site w HI HC) as HC'.
  by destruct (CRSession_send _ _ _ _ w) as [w' [p|e]].
Qed.

Lemma CallInvW_step w a : Inv w -> CallInvW w -> CallInvW (step w a).
Proof.
  intros HI HC. destruct a; simpl.
  - by apply CallInvW_send.
  - by apply CallInvW_markAsCrashed.
  - by apply CallInvW_detach.
  - by apply CallInvW_close.
  - unfold transport_deliver. destruct (onmessage (transport w)); [|done].
    by apply CallInvW_connection_onMessage.
  - by apply CallInvW_transport_closed.
Qed.

Lemma CallInvW_run acts w : Inv w -> CallInvW w -> CallInvW (run acts w).
Proof.
  revert w. induction acts as [|a acts IH]; intros w HI HC; simpl; [done|].
  apply IH; [by apply Inv_step|by apply CallInvW_step].
Qed.

Lemma CallInvW_initial sync logEnabled : CallInvW (new_CRConnection sync logEnabled).
Proof. by apply CallInv_initial. Qed.

(** ** The registry in every run *)

Lemma get_values_inj {K V} `{EqDecision K} (m : JSMap.t K V) k k' v :
  NoDup (JSMap.values m) -> JSMap.get k m = Some v -> JSMap.get k' m = Some v ->
  k = k'.
Proof.
  induction m as [|[k0 v0] m IH]; simpl; [done|].
  rewrite NoDup_cons. intros [Hv0 Hnd].
  destruct (decide (k0 = k)) as [Hk|Hk]; destruct (decide (k0 = k')) as [Hk'|Hk'].
  - congruence.
  - intros [= ->] Hget. destruct Hv0. by eapply JSMapFacts.get_Some_value.
  - intros Hget [= ->]. destruct Hv0. by eapply JSMapFacts.get_Some_value.
  - by apply IH.
Qed.

Lemma values_get {K V} `{EqDecision K} (m : JSMap.t K V) v :
  NoDup (JSMap.keys m) -> v ∈ JSMap.values m -> exists k, JSMap.get k m = Some v.
Proof.
  induction m as [|[k0 v0] m IH]; simpl.
  - intros _ Hin. by apply elem_of_nil in Hin.
  - rewrite NoDup_cons, elem_of_cons. intros [Hk0 Hnd] [->|Hin].
    + exists k0. by rewrite decide_True.
    + destruct (IH Hnd Hin) as (k & Hget). exists k.
      rewrite decide_False; [done|]. intros ->.
      apply Hk0. by eapply JSMapFacts.get_Some_key.
Qed.

Lemma delete_set_fresh {K V} `{EqDecision K} (m : JSMap.t K V) k v :
  JSMap.get k m = None -> JSMap.delete k (JSMap.set k v m) = m.
Proof.
  induction m as [|[k0 v0] m IH]; simpl.
  - intros _. by rewrite decide_True.
  - destruct (decide (k0 = k)) as [->|Hk]; [done|].
    intros Hget. simpl. rewrite decide_False by done. by rewrite IH.
Qed.

Lemma onClosed_transport r w : transport (CRSession_onClosed r w) = transport w.
Proof.
  destruct (heap w !! r) as [s|] eqn:Hr.
  - by rewrite (onClosed_eq _ _ _ Hr).
  - unfold CRSession_onClosed. by rewrite Hr.
Qed.

Lemma fold_onClosed_frame l w :
  let w' := foldl (fun w session => CRSession_onClosed session w) w l in
  connection w' = connection w /\ transport w' = transport w /\
  logger w' = logger w /\ nextPromise w' = nextPromise w /\
  length (heap w') = length (heap w).
Proof.
  revert w. induction l as [|r l IH]; intros w; simpl; [done|].
  destruct (IH (CRSession_onClosed r w)) as (Hc & Ht & Hl & Hn & Hh).
  rewrite Hc, Ht, Hl, Hn, Hh, onClosed_connection, onClosed_transport.
  destruct (heap w !! r) as [s|] eqn:Hr.
  - rewrite (onClosed_eq _ _ _ Hr). simpl. by rewrite length_insert.
  - unfold CRSession_onClosed. by rewrite Hr.
Qed.

Lemma onClose_frame w :
  connection (CRConnection_onClose w)
  = set_sessions [] (set_closed true (connection w)) /\
  transport (CRConnection_onClose w)
  = {| onmessage := false; onclose := false; sent := sent (transport w);
       closeCalls := closeCalls (transport w);
       syncClose := syncClose (transport w) |}.
Proof.
  unfold CRConnection_onClose.
  match goal with |- context [foldl ?f ?w0 ?l] =>
    destruct (fold_onClosed_frame l w0) as (Hc & Ht & _);
    remember (foldl f w0 l) as w1 eqn:Hw1; clear Hw1
  end.
  simpl in *. by rewrite Hc, Ht.
Qed.

Lemma Undisturbed_refl w : Undisturbed w w.
Proof. split; [done..|]. eauto. Qed.

Lemma Undisturbed_trans w1 w2 w3 :
  Undisturbed w1 w2 -> Undisturbed w2 w3 -> Undisturbed w1 w3.
Proof.
  intros [(Hs1 & Hc1 & Hr1) Hm1 Ho1 Hh1] [(Hs2 & Hc2 & Hr2) Hm2 Ho2 Hh2].
  split; [split_and!|..]; try congruence.
  intros r s Hr. destruct (Hh1 _ _ Hr) as (s2 & Hr2' & Hi2 & Hn2).
  destruct (Hh2 _ _ Hr2') as (s3 & Hr3 & Hi3 & Hn3).
  exists s3. split_and!; [done|congruence..].
Qed.

Lemma Undisturbed_store r s s' w :
  heap w !! r = Some s -> _sessionId s' = _sessionId s ->
  _connection s' = _connection s ->
  Undisturbed w (store_session r s' w).
Proof.
  intros Hr Hi Hn. split; [done..|]. simpl. intros r0 s0 Hr0.
  destruct (decide (r0 = r)) as [->|Hne].
  - exists s'. split; [by eapply lookup_store_eq|].
    assert (Some s0 = Some s) as [= ->] by exact (eq_trans (eq_sym Hr0) Hr).
    done.
  - exists s0. by rewrite list_lookup_insert_ne.
Qed.

Lemma Undisturbed_send r method params site w :
  Undisturbed w (CRSession_send r method params site w).1.
Proof.
  destruct (heap w !! r) as [s|] eqn:Hr;
    [|unfold CRSession_send; rewrite Hr; apply Undisturbed_refl].
  destruct (_crashed s) eqn:Hc;
    [erewrite send_fails by eauto; apply Undisturbed_refl|].
  destruct (_connection s) eqn:Hconn;
    [erewrite send_fails by eauto; apply Undisturbed_refl|].
  erewrite send_succeeds by eauto.
  destruct (rawSend_frame (_sessionId s) method params w)
    as (Hh & _ & _ & _ & Hs & Hroot & Hcl & _ & Hm & Ho & _).
  remember (CRConnection_rawSend (_sessionId s) method params w).2 as w1 eqn:Hw1.
  clear Hw1. split; simpl; [by split_and!|done|done|].
  intros r0 s0 Hr0. destruct (decide (r0 = r)) as [->|Hne].
  - eexists. split; [eapply lookup_store_eq; by rewrite Hh|].
    assert (Some s0 = Some s) as [= ->] by exact (eq_trans (eq_sym Hr0) Hr).
    done.
  - exists s0. by rewrite list_lookup_insert_ne, Hh.
Qed.

Lemma Undisturbed_markAsCrashed r w : Undisturbed w (CRSession_markAsCrashed r w).
Proof.
  unfold CRSession_markAsCrashed.
  destruct (heap w !! r) as [s|] eqn:Hr; [|apply Undisturbed_refl].
  by eapply Undisturbed_store.
Qed.

Lemma Undisturbed_session_onMessage r object w :
  Undisturbed w (CRSession_onMessage r object w).1.
Proof.
  unfold CRSession_onMessage.
  destruct (heap w !! r) as [s|] eqn:Hr; [|apply Undisturbed_refl].
  destruct (matching_callback object s) as [[i callback]|].
  - pose proof (Undisturbed_store r s
      (set_callbacks (JSMap.delete i (_callbacks s)) s) w Hr eq_refl eq_refl)
      as [Hreg Hm Ho Hh].
    by destruct (ProtocolResponse.error object).
  - destruct (truthy_num (ProtocolResponse.id object)); simpl;
      [apply Undisturbed_refl|].
    split; [done..|]. eauto.
Qed.

Lemma Undisturbed_detach r site w : Undisturbed w (CRSession_detach r site w).1.
Proof.
  unfold CRSession_detach, bind, ret.
  destruct (heap w !! r) as [s|]; [|apply Undisturbed_refl].
  destruct (_connection s); [apply Undisturbed_refl|].
  destruct (CRConnection_session (_rootSessionId s) w) as [root|];
    [|apply Undisturbed_refl].
  pose proof (Undisturbed_send root "Target.detachFromTarget"
    (Some (JObj [("sessionId", JStr (_sessionId s))])) site w) as Hu.
  by destruct (CRSession_send _ _ _ _ w) as [w' [p|e]].
Qed.

Lemma Undisturbed_log_line l w : Undisturbed w (log_line l w).
Proof.
  unfold log_line. destruct (isLogEnabled (logger w)); [|apply Undisturbed_refl].
  split; [done..|]. eauto.
Qed.

Lemma RegInv_undisturbed w w' : Undisturbed w w' -> RegInv w -> RegInv w'.
Proof.
  intros [(Hs & Hc & Hroot) Hm Ho Hh] [Hlive Hd Hk Hcl Hom Hoc].
  split; unfold CRConnection_session in *; rewrite ?Hs, ?Hc, ?Hm, ?Ho; try done.
  intros k r Hget. destruct (Hlive _ _ Hget) as (s & Hr & Hi & Hn).
  destruct (Hh _ _ Hr) as (s' & Hr' & Hi' & Hn').
  exists s'. split_and!; [exact Hr'|congruence..].
Qed.

Lemma RegInv_initial sync logEnabled : RegInv (new_CRConnection sync logEnabled).
Proof.
  split; simpl; try done.
  - unfold CRConnection_session. simpl. intros k r.
    destruct (decide ("" = k)) as [<-|]; [|done].
    intros [= <-]. by eexists.
  - apply NoDup_singleton.
  - apply NoDup_singleton.
Qed.

Lemma RegInv_onClose w : RegInv (CRConnection_onClose w).
Proof.
  destruct (onClose_frame w) as (Hc & Ht).
  split; unfold CRConnection_session; rewrite ?Hc, ?Ht; simpl; try done;
    apply NoDup_nil_2.
Qed.

Lemma registered_allocated w k r :
  RegInv w -> CRConnection_session k w = Some r -> (r < length (heap w))%nat.
Proof.
  intros HR Hget. destruct (reg_live _ HR _ _ Hget) as (s & Hr & _).
  by eapply lookup_lt_Some.
Qed.

Lemma RegInv_lifecycle message w :
  _closed (connection w) = false -> RegInv w -> RegInv (lifecycle message w).1.
Proof.
  intros Hopen HR. unfold lifecycle.
  destruct (decide (ProtocolResponse.method message = Some "Target.attachedToTarget")).
  - destruct (ProtocolResponse.params message) as [[sid ty| |]|]; try done.
    destruct HR as [Hlive Hd Hk Hcl Hom Hoc].
    split; unfold CRConnection_session in *; simpl; try done.
    + intros k r. destruct (decide (sid = k)) as [->|Hne].
      * rewrite JSMapFacts.get_set_eq. intros [= <-].
        eexists. split; [apply list_lookup_middle; done|done].
      * rewrite JSMapFacts.get_set_ne by done. intros Hget.
        destruct (Hlive _ _ Hget) as (s & Hr & Hs).
        exists s. split; [|done]. rewrite lookup_app_l; [done|].
        by eapply lookup_lt_Some.
    + rewrite <- (list_fmap_id (JSMap.values _)).
      apply JSMapFacts.NoDup_values_set; rewrite list_fmap_id; [done|].
      intros Hin. apply values_get in Hin as (k & Hget); [|done].
      destruct (Hlive _ _ Hget) as (s & Hr & _).
      apply lookup_lt_Some in Hr. unfold id in Hr. lia.
    + by apply JSMapFacts.NoDup_keys_set.
    + by rewrite Hopen.
  - destruct (decide (ProtocolResponse.method message
                      = Some "Target.detachedFromTarget")); [|done].
    destruct (ProtocolResponse.params message) as [p|]; [|done].
    destruct (params_sessionId p) as [sid|]; [|done].
    destruct (JSMap.get sid (_sessions (connection w))) as [session|] eqn:Hsid;
      [|done].
    destruct HR as [Hlive Hd Hk Hcl Hom Hoc].
    split; unfold CRConnection_session in *; simpl;
      rewrite ?onClosed_connection, ?onClosed_transport; try done.
    + intros k r. destruct (decide (sid = k)) as [->|Hne].
      * by rewrite JSMapFacts.get_delete_eq.
      * rewrite JSMapFacts.get_delete_ne by done. intros Hget.
        destruct (Hlive _ _ Hget) as (s & Hr & Hs).
        exists s. split; [|done]. rewrite onClosed_heap_ne; [done|].
        intros ->. apply Hne. by eapply get_values_inj.
    + rewrite <- (list_fmap_id (JSMap.values _)).
      apply JSMapFacts.NoDup_values_delete. by rewrite list_fmap_id.
    + by apply JSMapFacts.NoDup_keys_delete.
    + by rewrite Hopen.
Qed.

Lemma lifecycle_closed message w :
  _closed (connection (lifecycle message w).1) = _closed (connection w).
Proof.
  unfold lifecycle.
  destruct (decide (ProtocolResponse.method message = Some "Target.attachedToTarget")).
  - by destruct (ProtocolResponse.params message) as [[sid ty| |]|].
  - destruct (decide (ProtocolResponse.method message
                      = Some "Target.detachedFromTarget")); [|done].
    destruct (ProtocolResponse.params message) as [p|]; [|done].
    destruct (params_sessionId p) as [sid|]; [|done].
    destruct (JSMap.get sid (_sessions (connection w))) as [session|]; [|done].
    simpl. by rewrite onClosed_connection.
Qed.

Lemma RegInv_connection_onMessage message w :
  _closed (connection w) = false -> RegInv w ->
  RegInv (CRConnection_onMessage message w).1.
Proof.
  intros Hopen HR. unfold CRConnection_onMessage, bind, modify, ret.
  pose proof (Undisturbed_log_line (LogRecv message) w) as Hu.
  assert (HR1 : RegInv (log_line (LogRecv message) w))
    by by eapply RegInv_undisturbed.
  assert (Hopen1 : _closed (connection (log_line (LogRecv message) w)) = false).
  { destruct Hu as [(_ & Hc & _) _ _ _]. by rewrite Hc. }
  destruct (decide (ProtocolResponse.id message = Some kBrowserCloseMessageId));
    [done|].
  pose proof (RegInv_lifecycle message _ Hopen1 HR1) as HR2.
  destruct (lifecycle message (log_line (LogRecv message) w)) as [w2 [[]|e]];
    simpl in HR2; [|done].
  destruct (JSMap.get _ (_sessions (connection w2))) as [session|]; [|done].
  eapply RegInv_undisturbed; [apply Undisturbed_session_onMessage|done].
Qed.

Lemma RegInv_transport_closed w : RegInv w -> RegInv (transport_closed w).
Proof.
  intros HR. unfold transport_closed.
  destruct (onclose (transport w)); [apply RegInv_onClose|done].
Qed.

Lemma RegInv_close w : RegInv w -> RegInv (CRConnection_close w).
Proof.
  intros HR. unfold CRConnection_close, transport_close.
  destruct (negb (_closed (connection w))); [|done].
  match goal with |- context [set_transport ?t w] =>
    assert (RegInv (set_transport t w))
      by (eapply RegInv_undisturbed; [|exact HR]; split; [done..|]; eauto)
  end.
  destruct (syncClose _); [by apply RegInv_transport_closed|done].
Qed.

Lemma RegInv_step w a : RegInv w -> RegInv (step w a).
Proof.
  intros HR. destruct a; simpl.
  - eapply RegInv_undisturbed; [apply Undisturbed_send|done].
  - eapply RegInv_undisturbed; [apply Undisturbed_markAsCrashed|done].
  - eapply RegInv_undisturbed; [apply Undisturbed_detach|done].
  - by apply RegInv_close.
  - unfold transport_deliver.
    destruct (onmessage (transport w)) eqn:Hm; [|done].
    apply RegInv_connection_onMessage; [|done].
    rewrite (hook_onmessage _ HR) in Hm. by apply negb_true_iff.
  - by apply RegInv_transport_closed.
Qed.

Lemma RegInv_run acts w : RegInv w -> RegInv (run acts w).
Proof.
  revert w. induction acts as [|a acts IH]; intros w HR; simpl; [done|].
  apply IH. by apply RegInv_step.
Qed.

(** Every state of a run satisfies the three invariants. *)
Lemma run_invariants sync logEnabled acts :
  let w := run acts (new_CRConnection sync logEnabled) in
  Inv w /\ CallInvW w /\ RegInv w.
Proof.
  split_and!.
  - apply Inv_run, Inv_initial.
  - apply CallInvW_run; [apply Inv_initial|apply CallInvW_initial].
  - apply RegInv_run, RegInv_initial.
Qed.

(** ** Dispatch of one frame *)

Lemma onMessage_unmatched r s object i w :
  heap w !! r = Some s -> ProtocolResponse.id object = Some i -> i <> 0 ->
  JSMap.get i (_callbacks s) = None ->
  CRSession_onMessage r object w = (w, Throw AssertionFailed).
Proof.
  intros Hr Hid Hne Hget.
  assert (Hm : matching_callback object s = None).
  { apply matching_callback_None. right. eauto. }
  unfold CRSession_onMessage. rewrite Hr, Hm, Hid. unfold truthy_num.
  by destruct (Z.eqb_spec i 0).
Qed.

Lemma onMessage_event r s object w :
  heap w !! r = Some s -> ProtocolResponse.id object = None ->
  CRSession_onMessage r object w
  = (defer (EmitOnSession r (EvMethod (ProtocolResponse.method object))
              (ProtocolResponse.params object)) w, Ok tt).
Proof.
  intros Hr Hid. unfold CRSession_onMessage, matching_callback.
  by rewrite Hr, Hid.
Qed.

Lemma onMessage_heap_other o object r w :
  o <> r -> heap (CRSession_onMessage o object w).1 !! r = heap w !! r.
Proof.
  intros Hne. unfold CRSession_onMessage.
  destruct (heap w !! o) as [so|]; [|done].
  destruct (matching_callback object so) as [[i callback]|].
  - destruct (ProtocolResponse.error object); simpl;
      by rewrite list_lookup_insert_ne.
  - by destruct (truthy_num (ProtocolResponse.id object)).
Qed.

Lemma onMessage_heap_idle (o : ref) object (r : ref) s w :
  heap w !! r = Some s -> _callbacks s = [] ->
  heap (CRSession_onMessage o object w).1 !! r = Some s.
Proof.
  intros Hr Hs. destruct (decide (o = r)) as [->|Hne];
    [|by rewrite onMessage_heap_other].
  unfold CRSession_onMessage. rewrite Hr.
  destruct (matching_callback object s) as [[i callback]|] eqn:Hm.
  - apply matching_callback_Some in Hm as (_ & _ & Hget). by rewrite Hs in Hget.
  - by destruct (truthy_num (ProtocolResponse.id object)).
Qed.

(** An ordinary frame goes to the session registered under its [sessionId]. *)
Lemma ordinary_dispatch message w :
  ordinary message ->
  CRConnection_onMessage message w
  = match CRConnection_session (or_empty (ProtocolResponse.sessionId message)) w with
    | Some session =>
        CRSession_onMessage session message (log_line (LogRecv message) w)
    | None => (log_line (LogRecv message) w, Ok tt)
    end.
Proof.
  intros (Hid & Ha & Hd).
  unfold CRConnection_onMessage, bind, modify, ret, lifecycle. simpl.
  rewrite !decide_False by done.
  destruct (log_line_frame (LogRecv message) w) as (Hconn & _).
  unfold CRConnection_session. by rewrite Hconn.
Qed.

(** The dispatch of an attach notification: allocate and register the
    session, then hand the frame to the owner of the frame. *)
Lemma attach_dispatch message target type w :
  ProtocolResponse.method message = Some "Target.attachedToTarget" ->
  ProtocolResponse.id message <> Some kBrowserCloseMessageId ->
  ProtocolResponse.params message = Some (AttachedPayload target type) ->
  let w0 := log_line (LogRecv message) w in
  let w1 :=
    set_connection
      (set_sessions (JSMap.set target (length (heap w)) (_sessions (connection w)))
         (connection w))
      (set_heap
         (heap w ++
          [new_CRSession (or_empty (ProtocolResponse.sessionId message)) type target])
         w0) in
  CRConnection_onMessage message w
  = match CRConnection_session (or_empty (ProtocolResponse.sessionId message)) w1 with
    | Some session => CRSession_onMessage session message w1
    | None => (w1, Ok tt)
    end.
Proof.
  intros Hmethod Hid Hparams w0 w1.
  destruct (log_line_frame (LogRecv message) w) as (Hconn & Hheap & _).
  fold w0 in Hconn, Hheap.
  assert (Hlife : lifecycle message w0 = (w1, Ok tt)).
  { subst w1. unfold lifecycle, alloc_session. rewrite Hmethod.
    rewrite decide_True by done. rewrite Hparams. simpl.
    by rewrite Hconn, Hheap. }
  unfold CRConnection_onMessage, bind, modify, ret. simpl.
  rewrite decide_False by done. fold w0. by rewrite Hlife.
Qed.

Lemma StronglySorted_lt_NoDup (l : list Z) : StronglySorted Z.lt l -> NoDup l.
Proof.
  induction 1 as [|x l Hs IH Hall]; [apply NoDup_nil_2|].
  apply NoDup_cons. split; [|done].
  intros Hin. rewrite Forall_forall in Hall. specialize (Hall _ Hin). lia.
Qed.

Lemma NoDup_fmap_same {A B} (f : A -> B) (l : list A) x y :
  NoDup (f <$> l) -> x ∈ l -> y ∈ l -> f x = f y -> x = y.
Proof.
  induction l as [|a l IH]; simpl; [by intros _ Hx; apply elem_of_nil in Hx|].
  rewrite NoDup_cons, !elem_of_cons.
  intros [Ha Hnd] [->|Hx] [->|Hy] Heq; try done.
  - destruct Ha. rewrite Heq. by apply list_elem_of_fmap_2.
  - destruct Ha. rewrite <- Heq. by apply list_elem_of_fmap_2.
  - by apply IH.
Qed.

(** ** Properties of every run *)

(** X1. In every state of a run a registered session is allocated, carries
    the id it is registered under and still has its connection; it is
    registered under that id only, and the connection is open. *)
Theorem registered_sessions_are_live
    (sync logEnabled : bool) (acts : list Action) (k : string) (r : ref) :
  let w := run acts (new_CRConnection sync logEnabled) in
  CRConnection_session k w = Some r ->
  (exists s, heap w !! r = Some s /\ _sessionId s = k /\ _connection s = ConnThis) /\
  CRConnection_fromSession r w = Some ConnThis /\
  _closed (connection w) = false /\
  forall k', CRConnection_session k' w = Some r -> k' = k.
Proof.
  intros w Hget.
  destruct (run_invariants sync logEnabled acts) as (_ & _ & HR). fold w in HR.
  destruct (reg_live _ HR _ _ Hget) as (s & Hr & Hid & Hconn).
  split_and!.
  - by exists s.
  - unfold CRConnection_fromSession.
    assert (heap w !! r = Some s) as -> by exact Hr. simpl. by rewrite Hconn.
  - destruct (_closed (connection w)) eqn:Hc; [|done].
    unfold CRConnection_session in Hget. by rewrite (reg_closed _ HR Hc) in Hget.
  - intros k' Hget'. eapply get_values_inj; [apply (reg_distinct _ HR)|done..].
Qed.

(** X2. In every state of a run a session without connection has no
    pending call and is not in the registry. *)
Theorem closed_session_has_no_pending_call
    (sync logEnabled : bool) (acts : list Action) (r : ref) (s : CRSession) :
  let w := run acts (new_CRConnection sync logEnabled) in
  heap w !! r = Some s -> _connection s = ConnNull ->
  _callbacks s = [] /\ forall k, CRConnection_session k w <> Some r.
Proof.
  intros w Hr Hconn.
  destruct (run_invariants sync logEnabled acts) as (_ & HC & HR).
  fold w in HC, HR. split.
  - by eapply (dead_empty _ _ HC).
  - intros k Hget. destruct (reg_live _ HR _ _ Hget) as (s' & Hr' & _ & Hlive).
    assert (Some s' = Some s) as [= ->] by exact (eq_trans (eq_sym Hr') Hr).
    congruence.
Qed.

(** X3. In every state of a run each pending call awaits the answer to
    exactly one request on the wire: the request with its id, which has the
    method of the call and is tagged with the id of its session (untagged
    for the root). *)
Theorem pending_call_is_on_the_wire
    (sync logEnabled : bool) (acts : list Action) (r : ref) (s : CRSession)
    (i : Z) (callback : Callback) :
  let w := run acts (new_CRConnection sync logEnabled) in
  heap w !! r = Some s -> JSMap.get i (_callbacks s) = Some callback ->
  exists request,
    request ∈ sent (transport w) /\
    ProtocolRequest.id request = i /\
    ProtocolRequest.method request = cb_method callback /\
    ProtocolRequest.sessionId request = wire_tag (_sessionId s) /\
    forall request', request' ∈ sent (transport w) ->
      ProtocolRequest.id request' = i -> request' = request.
Proof.
  intros w Hr Hget.
  destruct (run_invariants sync logEnabled acts) as (HI & HC & _).
  fold w in HI, HC.
  destruct (on_the_wire _ _ HC _ _ _ _ Hr Hget) as (request & Hin & Hid & Hm & Ht).
  exists request. split_and!; try done.
  intros request' Hin' Hid'.
  eapply (NoDup_fmap_same ProtocolRequest.id); [|done..|congruence].
  apply StronglySorted_lt_NoDup, (sent_increasing _ _ _ (proj2 HI)).
Qed.

(** X4. In every state of a run no request id is pending in two sessions. *)
Theorem pending_id_belongs_to_one_session
    (sync logEnabled : bool) (acts : list Action) (r1 r2 : ref)
    (s1 s2 : CRSession) (i : Z) (c1 c2 : Callback) :
  let w := run acts (new_CRConnection sync logEnabled) in
  heap w !! r1 = Some s1 -> heap w !! r2 = Some s2 ->
  JSMap.get i (_callbacks s1) = Some c1 -> JSMap.get i (_callbacks s2) = Some c2 ->
  r1 = r2 /\ c1 = c2.
Proof.
  intros w H1 H2 Hg1 Hg2.
  destruct (run_invariants sync logEnabled acts) as (_ & HC & _). fold w in HC.
  assert (r1 = r2) as ->.
  { eapply (keys_apart _ _ HC); eauto using JSMapFacts.get_Some_key. }
  split; [done|].
  assert (Some s1 = Some s2) as [= ->] by exact (eq_trans (eq_sym H1) H2).
  congruence.
Qed.

(** X5. In every state of a run a reply that answers a call pending in one
    session but is addressed to another registered session fails the
    assertion of that session and settles nothing: apart from the log line
    the state is unchanged and the call stays pending. *)
Theorem misrouted_reply_fails_assertion
    (sync logEnabled : bool) (acts : list Action)
    (message : ProtocolResponse.t) (i : Z)
    (a b : ref) (sa : CRSession) (callback : Callback) :
  let w := run acts (new_CRConnection sync logEnabled) in
  ordinary message ->
  ProtocolResponse.id message = Some i ->
  heap w !! a = Some sa -> JSMap.get i (_callbacks sa) = Some callback ->
  CRConnection_session (or_empty (ProtocolResponse.sessionId message)) w = Some b ->
  b <> a ->
  CRConnection_onMessage message w
  = (log_line (LogRecv message) w, Throw AssertionFailed) /\
  heap (CRConnection_onMessage message w).1 !! a = Some sa /\
  settle_count (cb_promise callback) (CRConnection_onMessage message w).1 = 0%nat.
Proof.
  intros w Hord Hid Ha Hget Hb Hne.
  destruct (run_invariants sync logEnabled acts) as (HI & HC & HR).
  fold w in HI, HC, HR.
  destruct (reg_live _ HR _ _ Hb) as (sb & Hsb & _).
  destruct (log_line_frame (LogRecv message) w) as (_ & Hheap & _ & Hsettled & _).
  assert (Heq : CRConnection_onMessage message w
                = (log_line (LogRecv message) w, Throw AssertionFailed)).
  { rewrite (ordinary_dispatch _ _ Hord), Hb.
    eapply onMessage_unmatched; [by rewrite Hheap|done| |].
    - pose proof (keys_issued _ _ _ (proj2 HI) _ _ _ Ha
                    (JSMapFacts.get_Some_key _ _ _ Hget)). lia.
    - apply JSMapFacts.get_None_key. intros Hin. apply Hne.
      eapply (keys_apart _ _ HC); eauto using JSMapFacts.get_Some_key. }
  rewrite Heq. simpl. split_and!; [done|by rewrite Hheap|].
  apply settle_count_unsettled. rewrite Hsettled.
  eapply (pending_unsettled _ _ _ (proj1 HI)); [exact Ha|].
  apply list_elem_of_fmap_2. by eapply JSMapFacts.get_Some_value.
Qed.

(** X6. Once a detach notification for a session id has been dispatched,
    an ordinary frame addressed to that id is dropped, be it an event or the
    reply to a request the session sent before: only the log line is
    added, nothing is settled and nothing is thrown. *)
Theorem frame_for_detached_session_is_dropped
    (detach frame : ProtocolResponse.t) (p : Params) (target : string) (w : World) :
  ProtocolResponse.method detach = Some "Target.detachedFromTarget" ->
  ProtocolResponse.id detach <> Some kBrowserCloseMessageId ->
  ProtocolResponse.params detach = Some p ->
  params_sessionId p = Some target ->
  ordinary frame ->
  or_empty (ProtocolResponse.sessionId frame) = target ->
  let w1 := (CRConnection_onMessage detach w).1 in
  CRConnection_session target w1 = None /\
  CRConnection_onMessage frame w1 = (log_line (LogRecv frame) w1, Ok tt).
Proof.
  intros Hm Hid Hp Ht Hord Howner w1.
  assert (Hnone : CRConnection_session target w1 = None).
  { subst w1. rewrite (detach_dispatch detach p target w Hm Hid Hp Ht). cbv zeta.
    match goal with |- context [CRSession_onMessage _ detach ?w2] =>
      assert (Hw2 : CRConnection_session target w2 = None);
      [|remember w2 as w3 eqn:Hw3; clear Hw3]
    end.
    { unfold CRConnection_session.
      destruct (JSMap.get target (_sessions (connection (log_line (LogRecv detach) w))))
        as [session|] eqn:Hget; [|done].
      simpl. apply JSMapFacts.get_delete_eq. }
    destruct (JSMap.get _ (_sessions (connection w3))) as [o|]; [|done].
    destruct (RegistryKept_session_onMessage o detach w3) as (Hs & _).
    unfold CRConnection_session in *. by rewrite Hs. }
  split; [done|].
  rewrite (ordinary_dispatch _ _ Hord), Howner. by rewrite Hnone.
Qed.

(** X7. In every state of a run an ordinary frame without id addressed to
    a registered session is an event of that session: exactly one emission
    of its method with its params is scheduled for that session, and apart
    from the log line nothing else changes. *)
Theorem event_frame_schedules_one_emission
    (sync logEnabled : bool) (acts : list Action)
    (message : ProtocolResponse.t) (o : ref) :
  let w := run acts (new_CRConnection sync logEnabled) in
  ordinary message ->
  ProtocolResponse.id message = None ->
  CRConnection_session (or_empty (ProtocolResponse.sessionId message)) w = Some o ->
  CRConnection_onMessage message w
  = (defer (EmitOnSession o (EvMethod (ProtocolResponse.method message))
              (ProtocolResponse.params message))
       (log_line (LogRecv message) w), Ok tt).
Proof.
  intros w Hord Hid Ho.
  destruct (run_invariants sync logEnabled acts) as (_ & _ & HR). fold w in HR.
  destruct (reg_live _ HR _ _ Ho) as (so & Hso & _).
  destruct (log_line_frame (LogRecv message) w) as (_ & Hheap & _).
  rewrite (ordinary_dispatch _ _ Hord), Ho.
  eapply onMessage_event; [by rewrite Hheap|done].
Qed.

(** ** Attach and detach *)

Lemma attach_result message target type w :
  ProtocolResponse.method message = Some "Target.attachedToTarget" ->
  ProtocolResponse.id message <> Some kBrowserCloseMessageId ->
  ProtocolResponse.params message = Some (AttachedPayload target type) ->
  let w' := (CRConnection_onMessage message w).1 in
  _sessions (connection w')
  = JSMap.set target (length (heap w)) (_sessions (connection w)) /\
  heap w' !! length (heap w)
  = Some (new_CRSession (or_empty (ProtocolResponse.sessionId message)) type target) /\
  forall (r : ref), (forall k, CRConnection_session k w' <> Some r) ->
    heap w' !! r = heap w !! r.
Proof.
  intros Hm Hid Hp w'. subst w'.
  rewrite (attach_dispatch message target type w Hm Hid Hp). cbv zeta.
  destruct (log_line_frame (LogRecv message) w) as (_ & Hheap & _).
  match goal with |- context [CRSession_onMessage _ message ?w1] =>
    assert (Hs1 : _sessions (connection w1)
                  = JSMap.set target (length (heap w)) (_sessions (connection w)))
      by done;
    assert (Hn1 : heap w1 !! length (heap w)
                  = Some (new_CRSession
                            (or_empty (ProtocolResponse.sessionId message))
                            type target))
      by (simpl; by apply list_lookup_middle);
    assert (Hh1 : forall (r : ref), r <> length (heap w) ->
                    heap w1 !! r = heap w !! r);
    [|remember w1 as w2 eqn:Hw2; clear Hw2]
  end.
  { intros r Hne. simpl. destruct (decide (r < length (heap w))%nat).
    - by rewrite lookup_app_l.
    - rewrite !lookup_ge_None_2; [done|lia|rewrite length_app; simpl; lia]. }
  unfold CRConnection_session.
  destruct (JSMap.get _ (_sessions (connection w2))) as [o|] eqn:Ho.
  - destruct (RegistryKept_session_onMessage o message w2) as (Hs & _).
    split_and!.
    + by rewrite Hs.
    + by apply onMessage_heap_idle.
    + intros r Hr. rewrite Hs in Hr.
      rewrite onMessage_heap_other.
      * apply Hh1. intros ->. apply (Hr target).
        rewrite Hs1. apply JSMapFacts.get_set_eq.
      * intros ->. by apply (Hr (or_empty (ProtocolResponse.sessionId message))).
  - split_and!; [done..|].
    intros r Hr. apply Hh1. intros ->. apply (Hr target).
    simpl. rewrite Hs1. apply JSMapFacts.get_set_eq.
Qed.

Lemma detach_result message p target (r : ref) s w :
  ProtocolResponse.method message = Some "Target.detachedFromTarget" ->
  ProtocolResponse.id message <> Some kBrowserCloseMessageId ->
  ProtocolResponse.params message = Some p ->
  params_sessionId p = Some target ->
  CRConnection_session target w = Some r -> heap w !! r = Some s ->
  let w' := (CRConnection_onMessage message w).1 in
  _sessions (connection w') = JSMap.delete target (_sessions (connection w)) /\
  heap w' !! r = Some (closed_session s).
Proof.
  intros Hm Hid Hp Ht Hreg Hr w'. subst w'.
  rewrite (detach_dispatch message p target w Hm Hid Hp Ht). cbv zeta.
  destruct (log_line_frame (LogRecv message) w) as (Hconn & Hheap & _).
  unfold CRConnection_session in Hreg. rewrite <- Hconn in Hreg. rewrite Hreg.
  rewrite <- Hheap in Hr.
  match goal with |- context [CRSession_onMessage _ message ?w1] =>
    assert (Hs1 : _sessions (connection w1)
                  = JSMap.delete target (_sessions (connection w)))
      by (simpl; by rewrite Hconn);
    assert (Hr1 : heap w1 !! r = Some (closed_session s))
      by (by apply onClosed_heap_eq);
    remember w1 as w2 eqn:Hw2; clear Hw2
  end.
  destruct (JSMap.get _ (_sessions (connection w2))) as [o|]; [|done].
  destruct (RegistryKept_session_onMessage o message w2) as (Hs & _).
  split; [by rewrite Hs|by apply onMessage_keeps_closed].
Qed.

(** X8. An attach notification registers a new session under the target
    session id it names: the session is allocated at a fresh address, has
    the target type of the notification, the frame's own sessionId (the
    root when absent) as root session id, its connection and no pending
    call; every other registry entry is as before. *)
Theorem attach_registers_fresh_session
    (message : ProtocolResponse.t) (target type : string) (w : World) :
  ProtocolResponse.method message = Some "Target.attachedToTarget" ->
  ProtocolResponse.id message <> Some kBrowserCloseMessageId ->
  ProtocolResponse.params message = Some (AttachedPayload target type) ->
  let w' := (CRConnection_onMessage message w).1 in
  CRConnection_session target w' = Some (length (heap w)) /\
  heap w !! length (heap w) = None /\
  heap w' !! length (heap w)
  = Some {| _connection := ConnThis; _callbacks := [];
            _targetType := type; _sessionId := target;
            _rootSessionId := or_empty (ProtocolResponse.sessionId message);
            _crashed := false |} /\
  forall k, k <> target -> CRConnection_session k w' = CRConnection_session k w.
Proof.
  intros Hm Hid Hp w'.
  destruct (attach_result message target type w Hm Hid Hp) as (Hs & Hn & _).
  fold w' in Hs, Hn. unfold CRConnection_session. rewrite Hs. split_and!.
  - apply JSMapFacts.get_set_eq.
  - by apply lookup_ge_None_2.
  - done.
  - intros k Hne. by apply JSMapFacts.get_set_ne.
Qed.

(** X9. Attach then detach is a round trip on the registry: after an
    attach notification for an id that was not registered and a detach
    notification for the same id, the registry is what it was, and the
    session made in between is closed. *)
Theorem attach_then_detach_restores_registry
    (attach detach : ProtocolResponse.t) (p : Params) (target type : string)
    (w : World) :
  ProtocolResponse.method attach = Some "Target.attachedToTarget" ->
  ProtocolResponse.id attach <> Some kBrowserCloseMessageId ->
  ProtocolResponse.params attach = Some (AttachedPayload target type) ->
  ProtocolResponse.method detach = Some "Target.detachedFromTarget" ->
  ProtocolResponse.id detach <> Some kBrowserCloseMessageId ->
  ProtocolResponse.params detach = Some p ->
  params_sessionId p = Some target ->
  CRConnection_session target w = None ->
  let w' := (CRConnection_onMessage detach (CRConnection_onMessage attach w).1).1 in
  _sessions (connection w') = _sessions (connection w) /\
  heap w' !! length (heap w)
  = Some {| _connection := ConnNull; _callbacks := [];
            _targetType := type; _sessionId := target;
            _rootSessionId := or_empty (ProtocolResponse.sessionId attach);
            _crashed := false |}.
Proof.
  intros Ham Haid Hap Hdm Hdid Hdp Hdt Hfree w'.
  destruct (attach_result attach target type w Ham Haid Hap) as (Hs1 & Hn1 & _).
  destruct (detach_result detach p target (length (heap w))
              (new_CRSession (or_empty (ProtocolResponse.sessionId attach))
                 type target)
              (CRConnection_onMessage attach w).1 Hdm Hdid Hdp Hdt) as (Hs2 & Hn2).
  - unfold CRConnection_session. rewrite Hs1. apply JSMapFacts.get_set_eq.
  - exact Hn1.
  - fold w' in Hs2, Hn2. split; [|done].
    rewrite Hs2, Hs1. by apply delete_set_fresh.
Qed.

Lemma fold_onClosed_other l (r : ref) w :
  r ∉ l ->
  heap (foldl (fun w session => CRSession_onClosed session w) w l) !! r
  = heap w !! r.
Proof.
  revert w. induction l as [|r' l IH]; intros w Hnin; simpl; [done|].
  apply not_elem_of_cons in Hnin as [Hne Hnin].
  rewrite IH by done. by apply onClosed_heap_ne.
Qed.

(** X10. An attach notification for an id that is already registered
    replaces the registry entry and does not close the session that was
    registered: that session keeps its connection and its pending calls,
    and since it is no longer in the registry the transport-close handler
    does not reject them either. *)
Theorem reattach_leaves_previous_session_open
    (sync logEnabled : bool) (acts : list Action)
    (message : ProtocolResponse.t) (target type : string)
    (old : ref) (s : CRSession) :
  let w := run acts (new_CRConnection sync logEnabled) in
  ProtocolResponse.method message = Some "Target.attachedToTarget" ->
  ProtocolResponse.id message <> Some kBrowserCloseMessageId ->
  ProtocolResponse.params message = Some (AttachedPayload target type) ->
  CRConnection_session target w = Some old -> heap w !! old = Some s ->
  let w1 := (CRConnection_onMessage message w).1 in
  let w2 := CRConnection_onClose w1 in
  CRConnection_session target w1 = Some (length (heap w)) /\
  old <> length (heap w) /\
  _connection s = ConnThis /\
  heap w1 !! old = Some s /\
  heap w2 !! old = Some s /\
  forall callback, callback ∈ JSMap.values (_callbacks s) ->
    settle_count (cb_promise callback) w2 = 0%nat.
Proof.
  intros w Hm Hid Hp Hreg Hold w1 w2.
  destruct (run_invariants sync logEnabled acts) as (HI & _ & HR).
  fold w in HI, HR.
  destruct (attach_result message target type w Hm Hid Hp) as (Hs1 & Hn1 & Hh1).
  fold w1 in Hs1, Hn1, Hh1.
  assert (Hlt : (old < length (heap w))%nat) by by eapply lookup_lt_Some.
  assert (Hgone : forall k, CRConnection_session k w1 <> Some old).
  { intros k. unfold CRConnection_session. rewrite Hs1.
    destruct (decide (target = k)) as [<-|Hne].
    - rewrite JSMapFacts.get_set_eq. intros [= Heq]. lia.
    - rewrite JSMapFacts.get_set_ne by done. intros Hk. apply Hne.
      eapply get_values_inj; [apply (reg_distinct _ HR)|exact Hreg|exact Hk]. }
  assert (Hold1 : heap w1 !! old = Some s) by by rewrite Hh1.
  assert (HI1 : Inv w1) by (by apply Inv_connection_onMessage).
  assert (Hkeys1 : NoDup (JSMap.keys (_sessions (connection w1)))).
  { rewrite Hs1. apply JSMapFacts.NoDup_keys_set, (reg_keys _ HR). }
  assert (Hold2 : heap w2 !! old = Some s).
  { subst w2. unfold CRConnection_onClose. simpl.
    rewrite fold_onClosed_other; [done|].
    simpl. intros Hin. apply values_get in Hin as (k & Hk); [|done].
    by apply (Hgone k). }
  destruct (reg_live _ HR _ _ Hreg) as (s' & Hs' & _ & Hlive).
  assert (Some s' = Some s) as [= ->] by exact (eq_trans (eq_sym Hs') Hold).
  split_and!; try done.
  - unfold CRConnection_session. rewrite Hs1. apply JSMapFacts.get_set_eq.
  - lia.
  - intros callback Hcb. apply settle_count_unsettled.
    eapply (pending_unsettled _ _ _ (proj1 (Inv_onClose w1 HI1))); [exact Hold2|].
    by apply list_elem_of_fmap_2.
Qed.

(** ** The closed connection *)

(** X11. Closing is final: in every state of a run whose closed flag is
    set, no session is registered, a frame or a close event of the
    transport and [close()] change nothing, and the flag stays set in
    whatever follows. *)
Theorem closed_connection_is_inert
    (sync logEnabled : bool) (acts acts' : list Action)
    (k : string) (message : ProtocolResponse.t) :
  let w := run acts (new_CRConnection sync logEnabled) in
  _closed (connection w) = true ->
  CRConnection_session k w = None /\
  transport_deliver message w = w /\
  transport_closed w = w /\
  CRConnection_close w = w /\
  _closed (connection (run acts' w)) = true /\
  CRConnection_session k (run acts' w) = None.
Proof.
  intros w Hc.
  destruct (run_invariants sync logEnabled acts) as (_ & _ & HR). fold w in HR.
  assert (Hc' : _closed (connection (run acts' w)) = true)
    by by apply (ev_closed _ _ (Evolves_run acts' w)).
  assert (HR' : RegInv (run acts' w)) by by apply RegInv_run.
  split_and!.
  - unfold CRConnection_session. by rewrite (reg_closed _ HR Hc).
  - unfold transport_deliver. by rewrite (hook_onmessage _ HR), Hc.
  - unfold transport_closed. by rewrite (hook_onclose _ HR), Hc.
  - unfold CRConnection_close. by rewrite Hc.
  - done.
  - unfold CRConnection_session. by rewrite (reg_closed _ HR' Hc').
Qed.

Lemma onClosed_microtasks (r : ref) s w :
  heap w !! r = Some s ->
  microtasks (CRSession_onClosed r w)
  = microtasks w ++ [EmitOnSession r EvDisconnected None].
Proof. intros Hr. by rewrite (onClosed_eq _ _ _ Hr). Qed.

Lemma fold_onClosed_microtasks (l : list ref) w :
  (forall r, r ∈ l -> (r < length (heap w))%nat) ->
  microtasks (foldl (fun w session => CRSession_onClosed session w) w l)
  = microtasks w ++ ((fun r => EmitOnSession r EvDisconnected None) <$> l).
Proof.
  revert w. induction l as [|r l IH]; intros w Hall; simpl.
  - by rewrite app_nil_r.
  - destruct (lookup_lt_is_Some_2 (heap w) r) as [s Hr]; [apply Hall; left|].
    rewrite IH.
    + rewrite (onClosed_microtasks _ _ _ Hr). by rewrite <- app_assoc.
    + intros r' Hr'.
      destruct (fold_onClosed_frame [r] w) as (_ & _ & _ & _ & Hlen).
      simpl in Hlen. rewrite Hlen. apply Hall. by right.
Qed.

(** X12. The transport-close handler notifies in a fixed order: in every
    state of a run it schedules one Disconnected emission for each
    registered session, in the order of registration, and after them the
    Disconnected emission of the connection; it leaves the registry empty,
    the flag set and both hooks of the transport unset. *)
Theorem onClose_notifies_sessions_then_connection
    (sync logEnabled : bool) (acts : list Action) :
  let w := run acts (new_CRConnection sync logEnabled) in
  let w' := CRConnection_onClose w in
  microtasks w'
  = microtasks w ++
    ((fun r => EmitOnSession r EvDisconnected None)
       <$> JSMap.values (_sessions (connection w))) ++
    [EmitOnConnection EvDisconnected] /\
  _sessions (connection w') = [] /\
  _closed (connection w') = true /\
  onmessage (transport w') = false /\ onclose (transport w') = false.
Proof.
  intros w w'.
  destruct (run_invariants sync logEnabled acts) as (_ & _ & HR). fold w in HR.
  destruct (onClose_frame w) as (Hc & Ht). fold w' in Hc, Ht.
  rewrite Hc, Ht. split_and!; try done.
  subst w'. unfold CRConnection_onClose. simpl.
  rewrite fold_onClosed_microtasks; [by rewrite <- app_assoc|].
  simpl. intros r Hin.
  apply values_get in Hin as (k & Hk); [|apply (reg_keys _ HR)].
  by eapply registered_allocated.
Qed.

(** ** detach, _markAsCrashed, _sendMayFail *)

Lemma onMessage_at (r : ref) s object w :
  heap w !! r = Some s ->
  CRSession_onMessage r object w
  = match matching_callback object s with
    | Some (i, callback) =>
        let w := store_session r
                   (set_callbacks (JSMap.delete i (_callbacks s)) s) w in
        match ProtocolResponse.error object with
        | Some e =>
            (settle (cb_promise callback)
               (Rejected (createProtocolError (cb_error callback)
                            (cb_method callback) e)) w, Ok tt)
        | None =>
            (settle (cb_promise callback)
               (Resolved (default JUndefined (ProtocolResponse.result object))) w,
             Ok tt)
        end
    | None =>
        if truthy_num (ProtocolResponse.id object)
        then (w, Throw AssertionFailed)
        else (defer (EmitOnSession r (EvMethod (ProtocolResponse.method object))
                       (ProtocolResponse.params object)) w, Ok tt)
    end.
Proof. intros Hr. unfold CRSession_onMessage. by rewrite Hr. Qed.

Lemma onMessage_dangling (r : ref) object w :
  heap w !! r = None -> CRSession_onMessage r object w = (w, Throw NoSuchObject).
Proof. intros Hr. unfold CRSession_onMessage. by rewrite Hr. Qed.

Lemma markAsCrashed_at (r : ref) s w :
  heap w !! r = Some s ->
  CRSession_markAsCrashed r w = store_session r (set_crashed true s) w.
Proof. intros Hr. unfold CRSession_markAsCrashed. by rewrite Hr. Qed.

(** X13. [detach()] only asks: on a session without connection it throws
    "Session already detached ...", on a session whose root session id is
    not registered it throws "Root session has been closed", both without
    any change; and in every case it leaves the registry and the connection
    of the session as they are (the session is unregistered later, by the
    detach notification). *)
Theorem detach_only_requests
    (w : World) (r : ref) (s : CRSession) (site : CallSite) :
  heap w !! r = Some s ->
  let w' := (CRSession_detach r site w).1 in
  (_connection s = ConnNull ->
     CRSession_detach r site w
     = (w, Throw (ErrorExn (new_Error
          ("Session already detached. Most likely the " +:+ _targetType s +:+
           " has been closed.") site)))) /\
  (_connection s = ConnThis ->
     CRConnection_session (_rootSessionId s) w = None ->
     CRSession_detach r site w
     = (w, Throw (ErrorExn (new_Error "Root session has been closed" site)))) /\
  _sessions (connection w') = _sessions (connection w) /\
  exists s', heap w' !! r = Some s' /\ _connection s' = _connection s.
Proof.
  intros Hr w'. split_and!.
  - intros Hconn. unfold CRSession_detach. by rewrite Hr, Hconn.
  - intros Hconn Hroot. unfold CRSession_detach. by rewrite Hr, Hconn, Hroot.
  - apply (und_registry _ _ (Undisturbed_detach r site w)).
  - destruct (und_heap _ _ (Undisturbed_detach r site w) _ _ Hr) as (s' & Hs' & _ & Hc).
    by exists s'.
Qed.

(** X14. In every state of a run, [detach()] on a session with its
    connection whose root session is registered and not crashed puts
    exactly one request on the wire, "Target.detachFromTarget" with the id
    of the session as its [sessionId] parameter, tagged for the root
    session and under the next request id; the call is pending in the root
    session, and the session itself stays registered. *)
Theorem detach_sends_request_on_root_session
    (sync logEnabled : bool) (acts : list Action)
    (r root : ref) (s sr : CRSession) (site : CallSite) :
  let w := run acts (new_CRConnection sync logEnabled) in
  heap w !! r = Some s -> _connection s = ConnThis ->
  CRConnection_session (_rootSessionId s) w = Some root ->
  heap w !! root = Some sr -> _crashed sr = false ->
  let w' := (CRSession_detach r site w).1 in
  let id := _lastId (connection w) + 1 in
  (CRSession_detach r site w).2 = Ok tt /\
  sent (transport w')
  = sent (transport w) ++
    [{| ProtocolRequest.id := id;
        ProtocolRequest.method := "Target.detachFromTarget";
        ProtocolRequest.params :=
          Some (JObj [("sessionId", JStr (_sessionId s))]);
        ProtocolRequest.sessionId := wire_tag (_rootSessionId s) |}] /\
  (exists sr', heap w' !! root = Some sr' /\
     JSMap.get id (_callbacks sr')
     = Some {| cb_promise := nextPromise w; cb_error := new_Error "" site;
               cb_method := "Target.detachFromTarget" |}) /\
  forall k, CRConnection_session k w' = CRConnection_session k w.
Proof.
  intros w Hr Hconn Hroot Hsr Hcrashed w' id.
  destruct (run_invariants sync logEnabled acts) as (_ & _ & HR). fold w in HR.
  destruct (reg_live _ HR _ _ Hroot) as (sr0 & Hsr0 & Hrid & Hrconn).
  assert (Some sr0 = Some sr) as [= ->] by exact (eq_trans (eq_sym Hsr0) Hsr).
  assert (Heq : CRSession_detach r site w
    = ((CRSession_send root "Target.detachFromTarget"
          (Some (JObj [("sessionId", JStr (_sessionId s))])) site w).1, Ok tt)).
  { unfold CRSession_detach, bind, ret. rewrite Hr, Hconn, Hroot.
    by rewrite (send_succeeds _ _ _ _ _ _ Hsr Hcrashed Hrconn). }
  subst w'. rewrite Heq. cbn [fst snd].
  rewrite (send_succeeds _ _ _ _ _ _ Hsr Hcrashed Hrconn). cbn [fst snd].
  pose proof (rawSend_sent (_sessionId sr) "Target.detachFromTarget"
    (Some (JObj [("sessionId", JStr (_sessionId s))])) w) as Hsent.
  destruct (rawSend_frame (_sessionId sr) "Target.detachFromTarget"
    (Some (JObj [("sessionId", JStr (_sessionId s))])) w)
    as (Hh & _ & _ & _ & Hs & _).
  remember (CRConnection_rawSend (_sessionId sr) "Target.detachFromTarget"
    (Some (JObj [("sessionId", JStr (_sessionId s))])) w).2 as w1 eqn:Hw1.
  clear Hw1. simpl. split_and!.
  - done.
  - by rewrite Hsent, Hrid.
  - eexists. split; [eapply lookup_store_eq; by rewrite Hh|].
    simpl. apply JSMapFacts.get_set_eq.
  - intros k. unfold CRConnection_session. simpl. by rewrite Hs.
Qed.

(** X15. Marking a session as crashed does not disturb the handling of
    inbound frames: dispatching a frame to any session and marking any
    session as crashed commute, so calls pending at the time of the crash
    are settled by their replies as they would have been. *)
Theorem markAsCrashed_commutes_with_onMessage
    (r r' : ref) (object : ProtocolResponse.t) (w : World) :
  CRSession_onMessage r object (CRSession_markAsCrashed r' w)
  = (CRSession_markAsCrashed r' (CRSession_onMessage r object w).1,
     (CRSession_onMessage r object w).2).
Proof.
  destruct (heap w !! r') as [s'|] eqn:Hr'.
  - rewrite (markAsCrashed_at _ _ _ Hr').
    destruct (decide (r = r')) as [Heq|Hne].
    + subst r. rewrite (onMessage_at r' (set_crashed true s'))
        by (by eapply lookup_store_eq).
      rewrite (onMessage_at _ _ _ _ Hr').
      change (matching_callback object (set_crashed true s'))
        with (matching_callback object s').
      destruct (matching_callback object s') as [[i callback]|].
      * assert (Hd : forall o, heap (settle (cb_promise callback) o
                  (store_session r'
                     (set_callbacks (JSMap.delete i (_callbacks s')) s') w)) !! r'
                = Some (set_callbacks (JSMap.delete i (_callbacks s')) s'))
          by (intros o; by eapply lookup_store_eq).
        destruct (ProtocolResponse.error object); cbn [fst snd];
          rewrite (markAsCrashed_at _ _ _ (Hd _));
          unfold settle, store_session, set_settled, set_heap; simpl;
          by rewrite !list_insert_insert_eq.
      * destruct (truthy_num (ProtocolResponse.id object)); cbn [fst snd].
        -- by rewrite (markAsCrashed_at _ _ _ Hr').
        -- by rewrite (markAsCrashed_at r' s') by exact Hr'.
    + assert (Hsame : heap (store_session r' (set_crashed true s') w) !! r
                      = heap w !! r) by (by apply list_lookup_insert_ne).
      destruct (heap w !! r) as [s|] eqn:Hr.
      * rewrite (onMessage_at _ _ _ _ Hsame), (onMessage_at _ _ _ _ Hr).
        destruct (matching_callback object s) as [[i callback]|].
        -- assert (Hd : forall o, heap (settle (cb_promise callback) o
                     (store_session r
                        (set_callbacks (JSMap.delete i (_callbacks s)) s) w)) !! r'
                   = Some s')
             by (intros o; simpl; by rewrite list_lookup_insert_ne).
           destruct (ProtocolResponse.error object); cbn [fst snd];
             rewrite (markAsCrashed_at _ _ _ (Hd _));
             unfold settle, store_session, set_settled, set_heap; simpl;
             by rewrite list_insert_insert_ne.
        -- destruct (truthy_num (ProtocolResponse.id object)); cbn [fst snd].
           ++ by rewrite (markAsCrashed_at _ _ _ Hr').
           ++ by rewrite (markAsCrashed_at r' s') by exact Hr'.
      * rewrite (onMessage_dangling _ _ _ Hsame), (onMessage_dangling _ _ _ Hr).
        cbn [fst snd]. by rewrite (markAsCrashed_at _ _ _ Hr').
  - assert (Hid : CRSession_markAsCrashed r' w = w)
      by (unfold CRSession_markAsCrashed; by rewrite Hr').
    rewrite Hid. unfold CRSession_markAsCrashed.
    assert (Hnone : heap (CRSession_onMessage r object w).1 !! r' = None).
    { destruct (decide (r = r')) as [Heq|Hne].
      - subst r. by rewrite (onMessage_dangling _ _ _ Hr').
      - by rewrite onMessage_heap_other. }
    rewrite Hnone. by destruct (CRSession_onMessage r object w).
Qed.

(** X16. [_sendMayFail] never logs a failure of a closed session: once a
    session has no connection, as after [_onClosed], its rejection handler
    leaves the error log as it is, in that state and in every later one;
    while the session has its connection the handler logs the error. *)
Theorem rejection_after_close_is_not_logged
    (w : World) (r : ref) (s : CRSession) (acts : list Action)
    (error : Exn) (errorLog : list Exn) :
  heap w !! r = Some s ->
  (_connection s = ConnNull ->
     sendMayFail_onRejected r error (run acts w) errorLog = errorLog) /\
  sendMayFail_onRejected r error (run acts (CRSession_onClosed r w)) errorLog
  = errorLog /\
  (_connection s = ConnThis ->
     sendMayFail_onRejected r error w errorLog = errorLog ++ [error]).
Proof.
  intros Hr.
  assert (Hdead : forall w0 s0, heap w0 !! r = Some s0 -> _connection s0 = ConnNull ->
            sendMayFail_onRejected r error (run acts w0) errorLog = errorLog).
  { intros w0 s0 Hr0 Hc0.
    destruct (ev_heap _ _ (Evolves_run acts w0) _ _ Hr0) as (s1 & Hr1 & He).
    unfold sendMayFail_onRejected.
    assert (heap (run acts w0) !! r = Some s1) as -> by exact Hr1.
    by rewrite (se_connection _ _ He Hc0). }
  split_and!.
  - intros Hc. by eapply Hdead.
  - eapply Hdead; [by apply onClosed_heap_eq|done].
  - intros Hc. unfold sendMayFail_onRejected. by rewrite Hr, Hc.
Qed.

(** ** Promises *)

Lemma settle_count_le_1 p w : NoDup (settled w).*1 -> (settle_count p w <= 1)%nat.
Proof.
  intros Hnd. destruct (decide (p ∈ (settled w).*1)) as [Hin|Hnin].
  - apply list_elem_of_fmap in Hin as ([q o] & -> & Hin).
    by rewrite (settle_count_once _ o).
  - rewrite settle_count_unsettled by done. lia.
Qed.

(** X18. In every state of a run no promise has been settled twice, the
    promise of a pending call has not been settled at all, and no two
    pending calls, of one session or of two, share a promise. *)
Theorem promises_are_settled_at_most_once
    (sync logEnabled : bool) (acts : list Action) (p : PromiseRef) :
  let w := run acts (new_CRConnection sync logEnabled) in
  (settle_count p w <= 1)%nat /\
  (forall r s, heap w !! r = Some s -> p ∈ session_promises s ->
     settle_count p w = 0%nat /\ NoDup (session_promises s) /\
     forall r' s', heap w !! r' = Some s' -> p ∈ session_promises s' -> r' = r).
Proof.
  intros w.
  destruct (run_invariants sync logEnabled acts) as ([HP _] & _). fold w in HP.
  split.
  - apply settle_count_le_1, (settled_once _ _ _ HP).
  - intros r s Hr Hp. split_and!.
    + apply settle_count_unsettled. by eapply (pending_unsettled _ _ _ HP).
    + by eapply (pending_distinct _ _ _ HP).
    + intros r' s' Hr' Hp'. by eapply (pending_owned _ _ _ HP).
Qed.

(** ** Malformed notifications *)


(** ** createSession *)





(** * The further properties on sample runs *)

Lemma registered_sessions_are_live_witness :
  CRConnection_session "S" Scenarios.busy = Some 1%nat /\
  CRConnection_fromSession 1%nat Scenarios.busy = Some ConnThis.
Proof.
  split; [reflexivity|].
  exact (proj1 (proj2 (registered_sessions_are_live false false
                         Samples.two_pending "S" 1%nat eq_refl))).
Defined.

Lemma closed_session_has_no_pending_call_witness :
  heap Scenarios.detached !! 1%nat = Some Scenarios.S_closed /\
  _connection Scenarios.S_closed = ConnNull /\
  CRConnection_session "S" Scenarios.detached <> Some 1%nat.
Proof.
  split_and!; [reflexivity..|].
  exact (proj2 (closed_session_has_no_pending_call false false
                  (Samples.two_pending ++ [AFrame (Samples.detached "S")])
                  1%nat Scenarios.S_closed eq_refl eq_refl) "S").
Defined.

Lemma pending_call_is_on_the_wire_witness :
  heap Scenarios.busy !! 1%nat = Some Samples.S_busy /\
  JSMap.get 2 (_callbacks Samples.S_busy)
  = Some (Samples.call 1%nat "Foo.baz" "app.ts:11") /\
  exists request,
    request ∈ sent (transport Scenarios.busy) /\
    ProtocolRequest.id request = 2 /\
    ProtocolRequest.method request = "Foo.baz" /\
    ProtocolRequest.sessionId request = Some "S".
Proof.
  split_and!; [reflexivity..|].
  destruct (pending_call_is_on_the_wire false false Samples.two_pending 1%nat
              Samples.S_busy 2 (Samples.call 1%nat "Foo.baz" "app.ts:11")
              eq_refl eq_refl) as (request & Hin & Hid & Hm & Ht & _).
  exists request. split_and!; [exact Hin|exact Hid|exact Hm|exact Ht].
Defined.

Lemma pending_id_belongs_to_one_session_witness :
  heap Scenarios.busy !! 1%nat = Some Samples.S_busy /\
  JSMap.get 1 (_callbacks Samples.S_busy)
  = Some (Samples.call 0%nat "Foo.bar" "app.ts:10") /\
  1%nat = 1%nat.
Proof.
  split_and!; [reflexivity..|].
  exact (proj1 (pending_id_belongs_to_one_session false false Samples.two_pending
                  1%nat 1%nat Samples.S_busy Samples.S_busy 1
                  (Samples.call 0%nat "Foo.bar" "app.ts:10")
                  (Samples.call 0%nat "Foo.bar" "app.ts:10")
                  eq_refl eq_refl eq_refl eq_refl)).
Defined.

Lemma misrouted_reply_fails_assertion_witness :
  ordinary Scenarios.misrouted /\
  CRConnection_session "" Scenarios.busy = Some 0%nat /\
  JSMap.get 1 (_callbacks Samples.S_busy)
  = Some (Samples.call 0%nat "Foo.bar" "app.ts:10") /\
  heap (CRConnection_onMessage Scenarios.misrouted Scenarios.busy).1 !! 1%nat
  = Some Samples.S_busy.
Proof.
  assert (Hord : ordinary Scenarios.misrouted) by (split_and!; discriminate).
  split_and!; [exact Hord|reflexivity..|].
  exact (proj1 (proj2 (misrouted_reply_fails_assertion false false
                         Samples.two_pending Scenarios.misrouted 1 1%nat 0%nat
                         Samples.S_busy (Samples.call 0%nat "Foo.bar" "app.ts:10")
                         Hord eq_refl eq_refl eq_refl eq_refl
                         ltac:(discriminate)))).
Defined.

Lemma frame_for_detached_session_is_dropped_witness :
  ordinary Scenarios.late_reply /\
  (CRConnection_onMessage Scenarios.late_reply
     (CRConnection_onMessage (Samples.detached "S") Scenarios.busy).1).2 = Ok tt.
Proof.
  assert (Hord : ordinary Scenarios.late_reply) by (split_and!; discriminate).
  split; [exact Hord|].
  rewrite (proj2 (frame_for_detached_session_is_dropped (Samples.detached "S")
                    Scenarios.late_reply (DetachedPayload "S") "S" Scenarios.busy
                    eq_refl ltac:(discriminate) eq_refl eq_refl Hord eq_refl)).
  reflexivity.
Defined.

Lemma event_frame_schedules_one_emission_witness :
  ordinary Scenarios.event /\
  CRConnection_session "S" Scenarios.busy = Some 1%nat /\
  (CRConnection_onMessage Scenarios.event Scenarios.busy).2 = Ok tt.
Proof.
  assert (Hord : ordinary Scenarios.event) by (split_and!; discriminate).
  split_and!; [exact Hord|reflexivity|].
  unfold Scenarios.busy, Samples.fresh.
  rewrite (event_frame_schedules_one_emission false false Samples.two_pending
             Scenarios.event 1%nat Hord eq_refl eq_refl).
  reflexivity.
Defined.

Lemma attach_registers_fresh_session_witness :
  CRConnection_session "S" (CRConnection_onMessage (Samples.attached "S")
                              Samples.fresh).1 = Some 1%nat.
Proof.
  exact (proj1 (attach_registers_fresh_session (Samples.attached "S") "S" "page"
                  Samples.fresh eq_refl ltac:(discriminate) eq_refl)).
Defined.

Lemma attach_then_detach_restores_registry_witness :
  CRConnection_session "S" Samples.fresh = None /\
  _sessions (connection
    (CRConnection_onMessage (Samples.detached "S")
       (CRConnection_onMessage (Samples.attached "S") Samples.fresh).1).1)
  = [("", 0%nat)].
Proof.
  split; [reflexivity|].
  exact (proj1 (attach_then_detach_restores_registry (Samples.attached "S")
                  (Samples.detached "S") (DetachedPayload "S") "S" "page"
                  Samples.fresh eq_refl ltac:(discriminate) eq_refl
                  eq_refl ltac:(discriminate) eq_refl eq_refl eq_refl)).
Defined.

Lemma reattach_leaves_previous_session_open_witness :
  CRConnection_session "S" Scenarios.busy = Some 1%nat /\
  heap Scenarios.busy !! 1%nat = Some Samples.S_busy /\
  heap (CRConnection_onClose
          (CRConnection_onMessage (Samples.attached "S") Scenarios.busy).1) !! 1%nat
  = Some Samples.S_busy.
Proof.
  split_and!; [reflexivity..|].
  exact (proj1 (proj2 (proj2 (proj2 (proj2
           (reattach_leaves_previous_session_open false false Samples.two_pending
              (Samples.attached "S") "S" "page" 1%nat Samples.S_busy
              eq_refl ltac:(discriminate) eq_refl eq_refl eq_refl)))))).
Defined.

Lemma closed_connection_is_inert_witness :
  _closed (connection (run Scenarios.closed_acts Samples.fresh)) = true /\
  CRConnection_session "T"
    (run [AFrame (Samples.attached "T")]
       (run Scenarios.closed_acts Samples.fresh)) = None.
Proof.
  split; [reflexivity|].
  exact (proj2 (proj2 (proj2 (proj2 (proj2
           (closed_connection_is_inert false false Scenarios.closed_acts
              [AFrame (Samples.attached "T")] "T" (Samples.attached "T")
              eq_refl)))))).
Defined.

Lemma detach_only_requests_witness :
  heap Scenarios.detached !! 1%nat = Some Scenarios.S_closed /\
  CRSession_detach 1%nat "app.ts:20" Scenarios.detached
  = (Scenarios.detached,
     Throw (ErrorExn (new_Error
       "Session already detached. Most likely the page has been closed."
       "app.ts:20"))).
Proof.
  split; [reflexivity|].
  exact (proj1 (detach_only_requests Scenarios.detached 1%nat Scenarios.S_closed
                  "app.ts:20" eq_refl) eq_refl).
Defined.

Lemma detach_sends_request_on_root_session_witness :
  heap Scenarios.busy !! 1%nat = Some Samples.S_busy /\
  CRConnection_session "" Scenarios.busy = Some 0%nat /\
  heap Scenarios.busy !! 0%nat = Some Scenarios.root_idle /\
  (CRSession_detach 1%nat "app.ts:20" Scenarios.busy).2 = Ok tt.
Proof.
  split_and!; [reflexivity..|].
  exact (proj1 (detach_sends_request_on_root_session false false
                  Samples.two_pending 1%nat 0%nat Samples.S_busy
                  Scenarios.root_idle "app.ts:20"
                  eq_refl eq_refl eq_refl eq_refl eq_refl)).
Defined.

Lemma rejection_after_close_is_not_logged_witness :
  heap Scenarios.busy !! 1%nat = Some Samples.S_busy /\
  sendMayFail_onRejected 1%nat AssertionFailed
    (run [AFrame Scenarios.event] (CRSession_onClosed 1%nat Scenarios.busy)) []
  = [].
Proof.
  split; [reflexivity|].
  exact (proj1 (proj2 (rejection_after_close_is_not_logged Scenarios.busy 1%nat
                         Samples.S_busy [AFrame Scenarios.event] AssertionFailed []
                         eq_refl))).
Defined.



